(** * Typesense export job of openbeta-graphql

    A shallow embedding of [src/db/export/Typesense/Typesense.ts]: the two
    pagination generators, the record transformers, the collection
    provisioner, the chunk uploader and the orchestrator [onDBConnected],
    followed by the properties the specification states about them. *)

From Stdlib Require Import ZArith Floats.PrimFloat.
From stdpp Require Import base gmap strings list.

Open Scope string_scope.
Open Scope list_scope.

(** ** JavaScript values the job moves around *)

(** A JS [number] is an IEEE-754 double.  The job never computes with the
    coordinates or the statistics, it only copies them. *)
Definition number : Type := float.

(** What a [throw] carries.  A [TypeError] comes from reading a property of
    [undefined]; a [ClientError] is whatever the Typesense client rejects
    with (the HTTP status is enough to tell failures apart). *)
Inductive error : Type :=
| TypeError (property : string)
| ClientError (status : nat).

(** A computation without side effects that either returns or throws. *)
Inductive result (A : Type) : Type :=
| Ok (a : A)
| Throw (e : error).
Arguments Ok {A} a.
Arguments Throw {A} e.

Definition result_bind {A B} (r : result A) (k : A -> result B) : result B :=
  match r with
  | Ok a => k a
  | Throw e => Throw e
  end.

(** [o.p] where [o] may be [undefined]: reading the property throws. *)
Definition prop {A} (property : string) (o : option A) : result A :=
  match o with
  | Some a => Ok a
  | None => Throw (TypeError property)
  end.

(** [x ?? d] *)
Definition nullish {A} (x : option A) (d : A) : A :=
  match x with
  | Some a => a
  | None => d
  end.

(** [Array.prototype.map] with a callback that may throw: the first throw
    ends the traversal. *)
Fixpoint array_map {A B} (f : A -> result B) (l : list A) : result (list B) :=
  match l with
  | [] => Ok []
  | x :: l' =>
      match f x with
      | Throw e => Throw e
      | Ok y =>
          match array_map f l' with
          | Throw e => Throw e
          | Ok ys => Ok (y :: ys)
          end
      end
  end.

(** ** Source documents *)

(** [MUUID] (uuid-mongodb): a binary UUID; [toUUID().toString()] gives its
    canonical text, which is all the job reads of it. *)
Record MUUID : Type := { uuid_text : string }.

Definition toUUID_toString (id : MUUID) : string := uuid_text id.

#[global] Instance MUUID_eq_dec : EqDecision MUUID.
Proof. solve_decision. Defined.

(** GeoJSON [Point] of @turf/helpers: [coordinates] is [lng, lat]. *)
Record Point : Type := { coordinates : list number }.

(** Modelled from the spec: [DisciplineType] is declared in ClimbTypes.js,
    which is not part of the sources at hand.  The spec has "enumerated
    discipline flags": an object of named boolean flags, in the order of
    its properties. *)
Definition DisciplineType : Type := list (string * bool).

(** Modelled from the spec: [disciplinesToArray] is declared in Utils.js,
    which is not part of the sources at hand.  The spec has the flags
    turned into "the destination's array-of-strings convention": the names
    of the flags that are set. *)
Definition disciplinesToArray (type : DisciplineType) : list string :=
  map fst (filter (fun kv => snd kv = true) type).

Module ClimbTypes.

Record Metadata : Type := {
  climb_id : option MUUID;
  lnglat : option Point;
  areaRef : option MUUID
}.

Record Content : Type := { description : option string }.

(** A climb as stored.  Object-valued properties the transformer
    dereferences and properties it guards with [??] are optional here:
    the documents come straight out of an aggregation, unvalidated. *)
Record ClimbType : Type := {
  name : string;
  fa : option string;
  yds : string;
  type : DisciplineType;
  safety : string;
  metadata : option Metadata;
  content : option Content
}.

(** [ClimbExtType = ClimbType & { ancestors, pathTokens }]: a climb merged
    with the two projected properties of its area. *)
Record ClimbExtType : Type := {
  climb :> ClimbType;
  ancestors : string;
  pathTokens : list string
}.

End ClimbTypes.

Module AreaTypes.

Record Metadata : Type := {
  area_id : option MUUID;
  lnglat : option Point;
  leaf : bool;
  isDestination : bool
}.

Record AreaType : Type := {
  area_name : option string;
  metadata : option Metadata;
  ancestors : string;
  pathTokens : list string;
  totalClimbs : number;
  density : number
}.

End AreaTypes.

(** ** Destination documents and schemas (TypesenseSchemas.js) *)

Module TypesenseSchemas.

(** [undefined] in a slot of the pair is [None]. *)
Definition LatLng : Type := option number * option number.

Record ClimbTypeSenseItem : Type := {
  climbUUID : string;
  climbName : string;
  climbDesc : string;
  fa : string;
  areaNames : list string;
  disciplines : list string;
  grade : string;
  safety : string;
  cragLatLng : LatLng
}.

Record AreaTypeSenseItem : Type := {
  areaUUID : string;
  name : string;
  pathTokens : list string;
  areaLatLng : LatLng;
  leaf : bool;
  isDestination : bool;
  totalClimbs : number;
  density : number
}.

(** [Object]: what a chunk holds once it is cast to [Object[]]. *)
Inductive Object : Type :=
| ClimbObject (item : ClimbTypeSenseItem)
| AreaObject (item : AreaTypeSenseItem).

End TypesenseSchemas.

Import TypesenseSchemas.

(** [CollectionCreateSchema] of the Typesense client: the job reads only
    the collection name, the field list travels along to [create]. *)
Record CollectionCreateSchema : Type := {
  schema_name : string;
  schema_fields : list (string * string)
}.

(** ** The transformers *)

(** Lines 228-231.  [coordinates[i]] past the end of the array is
    [undefined]. *)
Definition geoToLatLng (geoPoint : option Point) : result LatLng :=
  result_bind (prop "coordinates" geoPoint) (fun p =>
  let coordinates := coordinates p in
  Ok (coordinates !! 1%nat, coordinates !! 0%nat)).

Module Climb.
Import ClimbTypes.

(** Lines 150-162: [mongoToTypeSense] of [updateClimbTypesense].  The
    properties of the literal are evaluated top to bottom. *)
Definition mongoToTypeSense (doc : ClimbExtType) : result ClimbTypeSenseItem :=
  result_bind (prop "climb_id" (metadata doc)) (fun md =>
  result_bind (prop "toUUID" (climb_id md)) (fun id =>
  result_bind (prop "description" (content doc)) (fun ct =>
  result_bind (geoToLatLng (lnglat md)) (fun latlng =>
  Ok {| climbUUID := toUUID_toString id;
        climbName := name doc;
        climbDesc := nullish (description ct) "";
        TypesenseSchemas.fa := nullish (fa doc) "";
        areaNames := pathTokens doc;
        disciplines := disciplinesToArray (type doc);
        grade := yds doc;
        TypesenseSchemas.safety := safety doc;
        cragLatLng := latlng |})))).

(** The input the transformer is written for: every object it reads
    through is there, the identifier included, and the position has its
    two coordinates. *)
Definition well_formed (doc : ClimbExtType) : bool :=
  match metadata doc, content doc with
  | Some md, Some _ =>
      match climb_id md, lnglat md with
      | Some _, Some p => (2 <=? length (coordinates p))%nat
      | _, _ => false
      end
  | _, _ => false
  end.

(** [doc.content.description], absent when it or [content] is. *)
Definition description_of (doc : ClimbExtType) : option string :=
  content doc ≫= description.

End Climb.

Module Area.
Import AreaTypes.

(** Lines 168-179: [mongoToTypeSense] of [updateAreaTypesense]. *)
Definition mongoToTypeSense (doc : AreaType) : result AreaTypeSenseItem :=
  result_bind (prop "area_id" (metadata doc)) (fun md =>
  result_bind (prop "toUUID" (area_id md)) (fun id =>
  result_bind (geoToLatLng (lnglat md)) (fun latlng =>
  Ok {| areaUUID := toUUID_toString id;
        TypesenseSchemas.name := nullish (area_name doc) "";
        TypesenseSchemas.pathTokens := pathTokens doc;
        areaLatLng := latlng;
        TypesenseSchemas.leaf := leaf md;
        TypesenseSchemas.isDestination := isDestination md;
        TypesenseSchemas.totalClimbs := totalClimbs doc;
        TypesenseSchemas.density := density doc |}))).

Definition well_formed (doc : AreaType) : bool :=
  match metadata doc with
  | Some md =>
      match area_id md, lnglat md with
      | Some _, Some p => (2 <=? length (coordinates p))%nat
      | _, _ => false
      end
  | None => false
  end.

End Area.

(** ** Effects: the Typesense client, the log, the process *)

Inductive level : Type := Info | Error.

(** What is handed to the logger. *)
Inductive message : Type :=
| Dropped (collection : string)
| Created (collection : string)
| Pushing (documents : nat)
| Caught (e : error)
| Text (s : string).

Inductive source : Type := ClimbsWithArea | Areas.

(** What the job does to the outside, in the order it does it.  A call to
    the client carries how it ended: [None] when the promise resolved,
    [Some status] when it rejected. *)
Inductive event : Type :=
| Delete (collection : string) (rejected : option nat)
| Create (schema : CollectionCreateSchema) (rejected : option nat)
| Import (collection : string) (chunk : list Object) (rejected : option nat)
| Fetch (from : source) (skip limit returned : nat)
| Log (lvl : level) (m : message).

(** The three calls the job makes on a Typesense [Client], as transitions
    of whatever state [St] the destination is in. *)
Class Client (St : Type) : Type := {
  collection_delete : string -> St -> St * option nat;
  collections_create : CollectionCreateSchema -> St -> St * option nat;
  documents_import : string -> list Object -> St -> St * option nat
}.

(** How an [async] function ends.  [Exited]: the process is gone, nothing
    after it runs and no [catch] sees it.  [Unfinished]: the loop was
    still going when the fuel ran out. *)
Inductive outcome (A : Type) : Type :=
| Returned (a : A)
| Rejected (e : error)
| Exited (code : Z)
| Unfinished.
Arguments Returned {A} a.
Arguments Rejected {A} e.
Arguments Exited {A} code.
Arguments Unfinished {A}.

Record Run (St A : Type) : Type := {
  final : St;
  trace : list event;
  outcome_of : outcome A
}.
Arguments final {St A} r.
Arguments trace {St A} r.
Arguments outcome_of {St A} r.

Definition M (St A : Type) : Type := St -> Run St A.

Definition after {St A B} (r : Run St A) (r' : Run St B) : Run St B :=
  {| final := final r'; trace := trace r ++ trace r'; outcome_of := outcome_of r' |}.

Definition stop {St A B} (r : Run St A) (o : outcome B) : Run St B :=
  {| final := final r; trace := trace r; outcome_of := o |}.

#[global] Instance M_ret {St} : MRet (M St) :=
  fun A a s => {| final := s; trace := []; outcome_of := Returned a |}.

#[global] Instance M_bind {St} : MBind (M St) :=
  fun A B k m s =>
    let r := m s in
    match outcome_of r with
    | Returned a => after r (k a (final r))
    | Rejected e => stop r (Rejected e)
    | Exited code => stop r (Exited code)
    | Unfinished => stop r Unfinished
    end.

(** [try { m } catch (e) { h e }] *)
Definition try_catch {St A} (m : M St A) (h : error -> M St A) : M St A :=
  fun s =>
    let r := m s in
    match outcome_of r with
    | Rejected e => after r (h e (final r))
    | _ => r
    end.

Definition throw {St A} (e : error) : M St A :=
  fun s => {| final := s; trace := []; outcome_of := Rejected e |}.

Definition out_of_fuel {St A} : M St A :=
  fun s => {| final := s; trace := []; outcome_of := Unfinished |}.

Definition lift {St A} (r : result A) : M St A :=
  match r with
  | Ok a => mret a
  | Throw e => throw e
  end.

Definition log {St} (lvl : level) (m : message) : M St unit :=
  fun s => {| final := s; trace := [Log lvl m]; outcome_of := Returned tt |}.

(** An awaited client call: the transition, its record in the trace, and
    a rejection turned into a throw. *)
Definition call {St} (step : St -> St * option nat) (ev : option nat -> event) : M St unit :=
  fun s =>
    let (s', rejected) := step s in
    {| final := s';
       trace := [ev rejected];
       outcome_of := match rejected with
                     | None => Returned tt
                     | Some status => Rejected (ClientError status)
                     end |}.

(** Modelled from the spec: [gracefulExit] is declared in db/index.js,
    which is not part of the sources at hand.  The spec has it as the
    defined exit path of the process: "zero signals a completed run", and
    a completed run ends in [gracefulExit()]; the fatal precondition path
    passes its code, [gracefulExit(1)].  So the process ends with the code
    passed, zero when none is. *)
Definition gracefulExit {St} (exitCode : option Z) : M St unit :=
  fun s => {| final := s; trace := []; outcome_of := Exited (nullish exitCode 0%Z) |}.

(** ** The source store *)

Record SourceDB : Type := {
  climbs : list ClimbTypes.ClimbType;
  areas : list AreaTypes.AreaType
}.

(** A property path through a document that may stop short reads as
    [null]; [$lookup] matches on equality, [null] included. *)
Definition areaRef_of (c : ClimbTypes.ClimbType) : option MUUID :=
  ClimbTypes.metadata c ≫= ClimbTypes.areaRef.

Definition area_id_of (a : AreaTypes.AreaType) : option MUUID :=
  AreaTypes.metadata a ≫= AreaTypes.area_id.

(** Lines 28-54: the pipeline of [getAllClimbs].  [$lookup] collects the
    areas whose [metadata.area_id] is the climb's [metadata.areaRef],
    projected on [ancestors] and [pathTokens]; [$unwind] gives one
    document per match (none without a match); [$replaceWith] merges the
    projection into the climb. *)
Definition aggregateClimbs (db : SourceDB) : list ClimbTypes.ClimbExtType :=
  c ← climbs db;
  a ← filter (fun a => areaRef_of c = area_id_of a) (areas db);
  [ {| ClimbTypes.climb := c;
       ClimbTypes.ancestors := AreaTypes.ancestors a;
       ClimbTypes.pathTokens := AreaTypes.pathTokens a |} ].

(** [.skip(skip).limit(limit)] over a result set that stays as it is for
    the length of the run; [limit] is positive. *)
Definition fetch {St T} (from : source) (rows : list T) (skip limit : nat) : M St (list T) :=
  fun s =>
    let page := take limit (drop skip rows) in
    {| final := s; trace := [Fetch from skip limit (length page)]; outcome_of := Returned page |}.

(** ** The job *)

(** Line 15. *)
Definition chunkSize : nat := 5000.

(** An async generator that keeps a page counter: resuming it at
    [pageNum] runs the loop body up to its [return] ([None]) or its
    [yield] (the page, and the counter the next resumption starts from). *)
Definition AsyncGenerator (St T : Type) : Type := nat -> M St (option (T * nat)).

(** Lines 23-65.  [size] stands for [chunkSize], so that the pagination
    can be stated for any page size; the job runs it at [chunkSize]. *)
Definition getAllClimbs {St} (size : nat) (db : SourceDB)
  : AsyncGenerator St (list ClimbTypes.ClimbExtType) :=
  fun pageNum =>
    page ← fetch ClimbsWithArea (aggregateClimbs db) (pageNum * size) size;
    if (length page =? 0)%nat then mret None
    else mret (Some (page, pageNum + 1)).

(** Lines 68-83. *)
Definition getAllAreas {St} (size : nat) (db : SourceDB)
  : AsyncGenerator St (list AreaTypes.AreaType) :=
  fun pageNum =>
    page ← fetch Areas (areas db) (pageNum * size) size;
    if (length page =? 0)%nat then mret None
    else mret (Some (page, pageNum + 1)).

(** [for await (const chunk of gen) body(chunk)], the generator started
    at [pageNum]. *)
Fixpoint for_await {St T} (fuel : nat) (gen : AsyncGenerator St T)
    (body : T -> M St unit) (pageNum : nat) : M St unit :=
  match fuel with
  | O => out_of_fuel
  | S fuel' =>
      r ← gen pageNum;
      match r with
      | None => mret tt
      | Some (chunk, pageNum') => body chunk ;; for_await fuel' gen body pageNum'
      end
  end.

Section Job.

Context {St : Type} {client : Client St}.

(** [climbSchema] and [areaSchema] are exported by TypesenseSchemas.js,
    which is not part of the sources at hand. *)
Variables climbSchema areaSchema : CollectionCreateSchema.

(** Lines 90-110. *)
Definition checkCollection (schema : CollectionCreateSchema) : M St unit :=
  try_catch
    (call (collection_delete (schema_name schema)) (Delete (schema_name schema)) ;;
     log Error (Dropped (schema_name schema)))
    (fun error => log Error (Caught error)) ;;
  try_catch
    (call (collections_create schema) (Create schema) ;;
     log Error (Created (schema_name schema)))
    (fun error => log Error (Caught error) ;; gracefulExit None).

(** Lines 112-124. *)
Definition uploadChunk (schema : CollectionCreateSchema) (chunk : list Object) : M St unit :=
  if (length chunk =? 0)%nat then mret tt
  else
    try_catch
      (log Info (Pushing (length chunk)) ;;
       call (documents_import (schema_name schema) chunk) (Import (schema_name schema) chunk))
      (fun e => log Error (Caught e)).

(** Lines 134-147.  [asObject] is the cast [as Object[]]. *)
Definition processMongoCollection {ChunkType SourceDataType : Type}
    (fuel : nat)
    (schema : CollectionCreateSchema)
    (convert : SourceDataType -> result ChunkType)
    (asObject : ChunkType -> Object)
    (dataGenerator : AsyncGenerator St (list SourceDataType)) : M St unit :=
  checkCollection areaSchema ;;
  for_await fuel dataGenerator
    (fun chunk =>
       docs ← lift (array_map convert chunk);
       uploadChunk schema (asObject <$> docs))
    0.

(** Lines 149-165. *)
Definition updateClimbTypesense (fuel : nat) (db : SourceDB) : M St unit :=
  processMongoCollection fuel climbSchema Climb.mongoToTypeSense ClimbObject
    (getAllClimbs chunkSize db).

(** Lines 167-182. *)
Definition updateAreaTypesense (fuel : nat) (db : SourceDB) : M St unit :=
  processMongoCollection fuel areaSchema Area.mongoToTypeSense AreaObject
    (getAllAreas chunkSize db).

(** Lines 184-221.  [env] is [process.env], [argv] is [process.argv]; the
    client is built without a call to the destination. *)
Definition onDBConnected (env : gmap string string) (argv : list string)
    (fuel : nat) (db : SourceDB) : M St unit :=
  let node := nullish (env !! "TYPESENSE_NODE") "" in
  let apiKey := nullish (env !! "TYPESENSE_API_KEY") "" in
  (if bool_decide (node = "") || bool_decide (apiKey = "")
   then gracefulExit (Some 1%Z) else mret tt) ;;
  log Info (Text "Start pushing data to TypeSense") ;;
  (if bool_decide ("--climbs" ∈ argv)
   then updateClimbTypesense fuel db ;; log Info (Text "Climbs pushed to typesense")
   else mret tt) ;;
  (if bool_decide ("--areas" ∈ argv)
   then updateAreaTypesense fuel db ;; log Info (Text "areas pushed to typesense")
   else mret tt) ;;
  gracefulExit None.

End Job.

(** ** A destination to run the job against *)

(** A Typesense server as far as the three calls go: collections by
    name, each holding the documents imported into it.  Deleting or
    importing into a collection that is not there is rejected (404), and
    so is creating one that is (409).  The documents of the job carry no
    [id] of their own, so every imported document is stored as a new one. *)
Module Server.

Definition delete_collection (name : string) (st : gmap string (list Object))
  : gmap string (list Object) * option nat :=
  match st !! name with
  | Some _ => (delete name st, None)
  | None => (st, Some 404)
  end.

Definition create_collection (schema : CollectionCreateSchema)
    (st : gmap string (list Object)) : gmap string (list Object) * option nat :=
  match st !! schema_name schema with
  | Some _ => (st, Some 409)
  | None => (<[schema_name schema := []]> st, None)
  end.

Definition import_documents (name : string) (chunk : list Object)
    (st : gmap string (list Object)) : gmap string (list Object) * option nat :=
  match st !! name with
  | Some docs => (<[name := docs ++ chunk]> st, None)
  | None => (st, Some 404)
  end.

#[global] Instance client : Client (gmap string (list Object)) := {
  collection_delete := delete_collection;
  collections_create := create_collection;
  documents_import := import_documents
}.

End Server.

(** A destination that rejects every call (503), and one that rejects
    the [n]-th import it sees and accepts everything else. *)
Module Outage.

#[global] Instance client : Client unit := {
  collection_delete _ st := (st, Some 503);
  collections_create _ st := (st, Some 503);
  documents_import _ _ st := (st, Some 503)
}.

End Outage.

Module Flaky.

#[global] Instance client : Client nat := {
  collection_delete _ st := (st, None);
  collections_create _ st := (st, None);
  documents_import _ _ st :=
    match st with
    | O => (O, None)
    | S O => (O, Some 503)
    | S n => (n, None)
    end
}.

End Flaky.

(** Sample data. *)
Module Sample.

Definition climbSchema : CollectionCreateSchema :=
  {| schema_name := "climbs"; schema_fields := [("climbName", "string")] |}.

Definition areaSchema : CollectionCreateSchema :=
  {| schema_name := "areas"; schema_fields := [("name", "string")] |}.

Definition env : gmap string string :=
  {[ "TYPESENSE_NODE" := "search.example.org"; "TYPESENSE_API_KEY" := "secret" ]}.

Definition id (text : string) : MUUID := {| uuid_text := text |}.

Definition area (uuid name : string) (tokens : list string) : AreaTypes.AreaType :=
  {| AreaTypes.area_name := Some name;
     AreaTypes.metadata :=
       Some {| AreaTypes.area_id := Some (id uuid);
               AreaTypes.lnglat := Some {| coordinates := [(-120.5)%float; 38.25%float] |};
               AreaTypes.leaf := true;
               AreaTypes.isDestination := false |};
     AreaTypes.ancestors := uuid;
     AreaTypes.pathTokens := tokens;
     AreaTypes.totalClimbs := 1%float;
     AreaTypes.density := 0.5%float |}.

Definition climb (uuid name areaUuid : string) : ClimbTypes.ClimbType :=
  {| ClimbTypes.name := name;
     ClimbTypes.fa := None;
     ClimbTypes.yds := "5.9";
     ClimbTypes.type := [("trad", true); ("sport", false)];
     ClimbTypes.safety := "PG";
     ClimbTypes.metadata :=
       Some {| ClimbTypes.climb_id := Some (id uuid);
               ClimbTypes.lnglat := Some {| coordinates := [(-120.5)%float; 38.25%float] |};
               ClimbTypes.areaRef := Some (id areaUuid) |};
     ClimbTypes.content := Some {| ClimbTypes.description := None |} |}.

(** An area whose metadata lacks the identifier. *)
Definition nameless_area : AreaTypes.AreaType :=
  {| AreaTypes.area_name := Some "Lost wall";
     AreaTypes.metadata :=
       Some {| AreaTypes.area_id := None;
               AreaTypes.lnglat := Some {| coordinates := [0%float; 0%float] |};
               AreaTypes.leaf := true;
               AreaTypes.isDestination := false |};
     AreaTypes.ancestors := "";
     AreaTypes.pathTokens := [];
     AreaTypes.totalClimbs := 0%float;
     AreaTypes.density := 0%float |}.

Definition db : SourceDB :=
  {| climbs := [climb "c-1" "Snake Dike" "a-3"];
     areas := [area "a-1" "A" ["A"]; area "a-2" "B" ["A"; "B"]; area "a-3" "C" ["A"; "B"; "C"]] |}.

End Sample.

(** * The vocabulary of the properties *)

(** ** Pages of a list *)

(** [ceil (n / size)] *)
Definition div_ceil (n size : nat) : nat := (n + size - 1) / size.

(** The slice a fetch at page [i] returns. *)
Definition page_at {T} (size : nat) (rows : list T) (i : nat) : list T :=
  take size (drop (i * size) rows).

(** What is left to page through once [k] pages are behind. *)
Definition pages_left {T} (size : nat) (rows : list T) (k : nat) : nat :=
  div_ceil (length rows - k * size) size.

(** The fetch that reads page [i]. *)
Definition fetch_event {T} (from : source) (rows : list T) (size i : nat) : event :=
  Fetch from (i * size) size (length (page_at size rows i)).

(** ** Reading a trace *)

Definition import_of (ev : event) : option (string * list Object) :=
  match ev with
  | Import collection chunk _ => Some (collection, chunk)
  | _ => None
  end.

Definition provision_of (ev : event) : option string :=
  match ev with
  | Delete collection _ => Some collection
  | Create schema _ => Some (schema_name schema)
  | _ => None
  end.

Definition fetched_of (ev : event) : option nat :=
  match ev with
  | Fetch _ _ _ returned => Some returned
  | _ => None
  end.

(** The bulk imports attempted, the collections dropped and created (or
    tried), and the sizes of the pages read, each in order. *)
Definition imports (t : list event) : list (string * list Object) := omap import_of t.
Definition provisions (t : list event) : list string := omap provision_of t.
Definition fetched (t : list event) : list nat := omap fetched_of t.

(** The sizes of the chunks imported, and of the pages that were not empty. *)
Definition chunk_sizes (t : list event) : list nat :=
  (fun c : string * list Object => length c.2) <$> imports t.

Definition yielded (t : list event) : list nat :=
  filter (fun n => n <> 0) (fetched t).

(** What follows the first rejected [create] in a trace, if there is one. *)
Fixpoint after_failed_create (t : list event) : option (list event) :=
  match t with
  | [] => None
  | Create _ (Some _) :: t' => Some t'
  | _ :: t' => after_failed_create t'
  end.

Definition logs_type_error (ev : event) : bool :=
  match ev with
  | Log _ (Caught (TypeError _)) => true
  | _ => false
  end.

(** ** Running the generators on their own *)

(** Resume the generator until it returns, keeping what it yields. *)
Fixpoint drain {St T} (fuel : nat) (gen : AsyncGenerator St T) (pageNum : nat)
  : M St (list T) :=
  match fuel with
  | O => out_of_fuel
  | S fuel' =>
      r ← gen pageNum;
      match r with
      | None => mret []
      | Some (chunk, pageNum') =>
          rest ← drain fuel' gen pageNum'; mret (chunk :: rest)
      end
  end.

(** Both generators are the same loop over a different query. *)
Definition paged {St T} (from : source) (rows : list T) (size : nat)
  : AsyncGenerator St (list T) :=
  fun pageNum =>
    page ← fetch from rows (pageNum * size) size;
    if (length page =? 0)%nat then mret None
    else mret (Some (page, pageNum + 1)).

(** What it is to page through [rows] by [size]: the run returns the
    [ceil (N / size)] slices, in order and covering [rows]; all but the
    last are full and the last holds the remainder (a full page when
    there is none); the fetches are at [0], [size], [2 * size], ..., one
    per page and a last one that comes back empty, which is where the
    generator returns. *)
Definition paginates {St T} (from : source) (size : nat) (rows : list T)
    (s : St) (r : Run St (list (list T))) : Prop :=
  let n := div_ceil (length rows) size in
  outcome_of r = Returned (page_at size rows <$> seq 0 n) /\
  concat (page_at size rows <$> seq 0 n) = rows /\
  trace r = (fun i => Fetch from (i * size) size (length (page_at size rows i)))
              <$> seq 0 (S n) /\
  final r = s /\
  (forall i, i + 1 < n -> length (page_at size rows i) = size) /\
  (forall i, i + 1 = n ->
     length (page_at size rows i) =
       if (length rows mod size =? 0)%nat then size else length rows mod size) /\
  (forall i, i < n -> 1 <= length (page_at size rows i)) /\
  length (page_at size rows n) = 0.

(** What a resumption of a generator may hand to the loop. *)
Definition yields_bounded {St T} (size : nat) (r : Run St (option (list T * nat))) : Prop :=
  match outcome_of r with
  | Returned (Some (page, _)) => 1 <= length page <= size
  | Returned None => True
  | _ => False
  end.

(** ** The loop of [processMongoCollection], and a whole pass *)

Section LoopVocabulary.

Context {St : Type} {client : Client St}.
Context {ChunkType SourceDataType : Type}.
Variables (schema : CollectionCreateSchema)
          (convert : SourceDataType -> result ChunkType)
          (asObject : ChunkType -> Object)
          (from : source) (rows : list SourceDataType) (size : nat).

(** The body of the loop. *)
Definition upload_page (chunk : list SourceDataType) : M St unit :=
  docs ← lift (array_map convert chunk);
  uploadChunk schema (asObject <$> docs).

(** What [uploadChunk] does with a chunk that is not empty. *)
Definition import_run (chunk : list Object) (s : St) : Run St unit :=
  let (s', rejected) := documents_import (schema_name schema) chunk s in
  {| final := s';
     trace := Log Info (Pushing (length chunk))
              :: Import (schema_name schema) chunk rejected
              :: match rejected with
                 | None => []
                 | Some status => [Log Error (Caught (ClientError status))]
                 end;
     outcome_of := Returned tt |}.

Definition pass_loop (fuel k : nat) : M St unit :=
  for_await fuel (paged from rows size) upload_page k.

Definition chunk_ok (c : string * list Object) : Prop :=
  c.1 = schema_name schema /\ 1 <= length c.2 <= size.

(** Every import goes to [schema], with between one and [size] documents;
    the loop provisions nothing and logs no [TypeError]; it never ends the
    process; and the chunks imported are, in order, the pages yielded, all
    of them when the loop returns. *)
Definition loop_inv (r : Run St unit) : Prop :=
  Forall chunk_ok (imports (trace r)) /\
  provisions (trace r) = [] /\
  Forall (fun ev => logs_type_error ev = false) (trace r) /\
  match outcome_of r with
  | Returned _ => chunk_sizes (trace r) = yielded (trace r)
  | Exited _ => False
  | _ => chunk_sizes (trace r) `prefix_of` yielded (trace r)
  end.

(** The chunk page [i] turns into. *)
Definition chunk_at (docs : list ChunkType) (i : nat) : string * list Object :=
  (schema_name schema, asObject <$> page_at size docs i).

End LoopVocabulary.

(** What [checkCollection] does: one [delete], one [create], a log line
    after each, and the exit when the [create] is rejected. *)
Definition provision_run {St} {client : Client St}
    (schema : CollectionCreateSchema) (s : St) : Run St unit :=
  let (s1, dropped) := collection_delete (schema_name schema) s in
  let (s2, created) := collections_create schema s1 in
  {| final := s2;
     trace := [ Delete (schema_name schema) dropped;
                Log Error (match dropped with
                           | None => Dropped (schema_name schema)
                           | Some status => Caught (ClientError status)
                           end);
                Create schema created;
                Log Error (match created with
                           | None => Created (schema_name schema)
                           | Some status => Caught (ClientError status)
                           end) ];
     outcome_of := match created with
                   | None => Returned tt
                   | Some _ => Exited 0
                   end |}.

(** The chunks imported are, in order, the pages yielded: all of them
    when the pass returns, those before the end otherwise. *)
Definition one_chunk_per_page {St} (r : Run St unit) : Prop :=
  match outcome_of r with
  | Returned _ => chunk_sizes (trace r) = yielded (trace r)
  | _ => chunk_sizes (trace r) `prefix_of` yielded (trace r)
  end.

(** Every import a computation attempts satisfies [P]. *)
Definition imports_all {St} (P : string * list Object -> Prop) {A} (m : M St A) : Prop :=
  forall s, Forall P (imports (trace (m s))).

Definition within_chunkSize (c : string * list Object) : Prop :=
  1 <= length c.2 <= chunkSize.

(** ** More sample data *)

Definition sample_climb : ClimbTypes.ClimbExtType :=
  {| ClimbTypes.climb := Sample.climb "c-1" "Snake Dike" "a-3";
     ClimbTypes.ancestors := "a-1,a-2,a-3";
     ClimbTypes.pathTokens := ["A"; "B"; "C"] |}.

Definition unnamed_area : AreaTypes.AreaType :=
  {| AreaTypes.area_name := None;
     AreaTypes.metadata := AreaTypes.metadata (Sample.area "a-9" "" []);
     AreaTypes.ancestors := "a-9";
     AreaTypes.pathTokens := [];
     AreaTypes.totalClimbs := 0%float;
     AreaTypes.density := 0%float |}.

(** The documents the sample areas turn into. *)
Definition sample_area_docs : list AreaTypeSenseItem :=
  match array_map Area.mongoToTypeSense (areas Sample.db) with
  | Ok docs => docs
  | Throw _ => []
  end.

(** The documents the sample climbs turn into. *)
Definition sample_climb_docs : list ClimbTypeSenseItem :=
  match array_map Climb.mongoToTypeSense (aggregateClimbs Sample.db) with
  | Ok docs => docs
  | Throw _ => []
  end.

(** ** The guard and the transformers, read as conditions *)

(** The condition of the guard of [onDBConnected], lines 185-188. *)
Definition credentials_missing (env : gmap string string) : bool :=
  bool_decide (nullish (env !! "TYPESENSE_NODE") "" = "")
  || bool_decide (nullish (env !! "TYPESENSE_API_KEY") "" = "").

(** The objects the climb transformer reads a property of. *)
Definition climb_objects_present (doc : ClimbTypes.ClimbExtType) : bool :=
  match ClimbTypes.metadata (ClimbTypes.climb doc), ClimbTypes.content (ClimbTypes.climb doc) with
  | Some md, Some _ =>
      match ClimbTypes.climb_id md, ClimbTypes.lnglat md with
      | Some _, Some _ => true
      | _, _ => false
      end
  | _, _ => false
  end.

(** The objects the area transformer reads a property of. *)
Definition area_objects_present (doc : AreaTypes.AreaType) : bool :=
  match AreaTypes.metadata doc with
  | Some md =>
      match AreaTypes.area_id md, AreaTypes.lnglat md with
      | Some _, Some _ => true
      | _, _ => false
      end
  | None => false
  end.

(** The climb an area is joined to, merged as [$replaceWith] does. *)
Definition merge_area (c : ClimbTypes.ClimbType) (a : AreaTypes.AreaType)
  : ClimbTypes.ClimbExtType :=
  {| ClimbTypes.climb := c;
     ClimbTypes.ancestors := AreaTypes.ancestors a;
     ClimbTypes.pathTokens := AreaTypes.pathTokens a |}.

(** How a pass may end short of returning: by the exit of
    [checkCollection], or rejected by the [TypeError] of a transformer. *)
Definition ends_as_a_pass {St} (r : Run St unit) : Prop :=
  match outcome_of r with
  | Exited code => code = 0%Z
  | Rejected e => exists property, e = TypeError property
  | _ => True
  end.

(** The sample climb joined to its area, and a store with a climb whose
    area is not there. *)
Definition sample_joined : ClimbTypes.ClimbExtType :=
  merge_area (Sample.climb "c-1" "Snake Dike" "a-3") (Sample.area "a-3" "C" ["A"; "B"; "C"]).

Definition sample_db_with_orphan : SourceDB :=
  {| climbs := [Sample.climb "c-1" "Snake Dike" "a-3"; Sample.climb "c-2" "Orphan" "a-7";
                Sample.climb "c-3" "Regular Route" "a-1"];
     areas := areas Sample.db |}.

(** A destination that holds a stale area document and a climb
    collection. *)
Definition sample_stale_store : gmap string (list Object) :=
  {[ "areas" := AreaObject <$> drop 2 sample_area_docs; "climbs" := [] ]}.

(** * Properties *)

(** ** Pages of a list *)

Lemma div_ceil_0 size : 1 <= size -> div_ceil 0 size = 0.
Proof.
  intros Hs. unfold div_ceil. apply Nat.div_small. lia.
Qed.

Lemma div_ceil_S n size :
  1 <= size -> 1 <= n -> div_ceil n size = S (div_ceil (n - size) size).
Proof.
  intros Hs Hn. unfold div_ceil.
  replace (n + size - 1) with ((n - 1) + 1 * size) by lia.
  rewrite Nat.div_add by lia.
  destruct (decide (size <= n)) as [Hle|Hgt].
  - replace (n - size + size - 1) with (n - 1) by lia. lia.
  - replace (n - size + size - 1) with (size - 1) by lia.
    rewrite !Nat.div_small by lia. lia.
Qed.

Lemma div_ceil_quot n size :
  1 <= size ->
  div_ceil n size = n / size + (if (n mod size =? 0)%nat then 0 else 1).
Proof.
  intros Hs. unfold div_ceil.
  pose proof (Nat.div_mod_eq n size) as Hdm.
  pose proof (Nat.mod_upper_bound n size ltac:(lia)) as Hr.
  destruct (Nat.eqb_spec (n mod size) 0) as [H0|Hne].
  - replace (n + size - 1) with ((size - 1) + (n / size) * size) by lia.
    rewrite Nat.div_add by lia. rewrite Nat.div_small by lia. lia.
  - replace (n + size - 1) with ((n mod size - 1) + (n / size + 1) * size) by lia.
    rewrite Nat.div_add by lia. rewrite Nat.div_small by lia. lia.
Qed.

Lemma div_ceil_pos n size : 1 <= size -> div_ceil n size = 0 -> n = 0.
Proof.
  intros Hs H0. destruct n as [|n]; [done|].
  rewrite div_ceil_S in H0 by lia. done.
Qed.

Lemma pages_left_0 {T} size (rows : list T) k :
  1 <= size -> pages_left size rows k = 0 -> page_at size rows k = [].
Proof.
  intros Hs H0. apply div_ceil_pos in H0; [|done].
  unfold page_at. rewrite drop_ge by lia. by rewrite take_nil.
Qed.

Lemma pages_left_S {T} size (rows : list T) k n :
  1 <= size -> pages_left size rows k = S n ->
  page_at size rows k <> [] /\ pages_left size rows (k + 1) = n.
Proof.
  intros Hs Hn. unfold pages_left in *.
  assert (1 <= length rows - k * size) as Hpos.
  { destruct (length rows - k * size) eqn:E; [|lia].
    rewrite div_ceil_0 in Hn by done. done. }
  split.
  - intros Hnil. apply (f_equal length) in Hnil.
    unfold page_at in Hnil. rewrite length_take, length_drop in Hnil.
    simpl in Hnil. lia.
  - rewrite div_ceil_S in Hn by done.
    replace (length rows - (k + 1) * size) with (length rows - k * size - size) by lia.
    congruence.
Qed.

Lemma length_page_at {T} size (rows : list T) i :
  length (page_at size rows i) = size `min` (length rows - i * size).
Proof. unfold page_at. by rewrite length_take, length_drop. Qed.

(** Every page but the last is full. *)
Lemma page_at_full {T} size (rows : list T) i :
  1 <= size -> i + 1 < div_ceil (length rows) size ->
  length (page_at size rows i) = size.
Proof.
  intros Hs Hi. rewrite length_page_at.
  rewrite div_ceil_quot in Hi by done.
  pose proof (Nat.div_mod_eq (length rows) size) as Hdm.
  destruct (Nat.eqb_spec (length rows mod size) 0); nia.
Qed.

(** The last page holds the remainder, or is full when there is none. *)
Lemma page_at_last {T} size (rows : list T) i :
  1 <= size -> i + 1 = div_ceil (length rows) size ->
  length (page_at size rows i) =
    if (length rows mod size =? 0)%nat then size else length rows mod size.
Proof.
  intros Hs Hi. rewrite length_page_at.
  rewrite div_ceil_quot in Hi by done.
  pose proof (Nat.div_mod_eq (length rows) size) as Hdm.
  pose proof (Nat.mod_upper_bound (length rows) size ltac:(lia)) as Hr.
  destruct (Nat.eqb_spec (length rows mod size) 0); nia.
Qed.

(** ** [Array.prototype.map] *)

Lemma array_map_length {A B} (f : A -> result B) l d :
  array_map f l = Ok d -> length d = length l.
Proof.
  revert d. induction l as [|x l IH]; intros d H; simpl in H.
  - by inversion H.
  - destruct (f x); [|done]. destruct (array_map f l) as [ys|]; [|done].
    inversion H; subst. simpl. f_equal. by apply IH.
Qed.

Lemma array_map_take {A B} (f : A -> result B) l d n :
  array_map f l = Ok d -> array_map f (take n l) = Ok (take n d).
Proof.
  revert d n. induction l as [|x l IH]; intros d n H; simpl in H.
  - inversion H. by rewrite !take_nil.
  - destruct (f x) as [y|] eqn:Hx; [|done].
    destruct (array_map f l) as [ys|] eqn:Hl; [|done].
    inversion H; subst. destruct n as [|n]; [done|].
    simpl. rewrite Hx. by rewrite (IH ys n).
Qed.

Lemma array_map_drop {A B} (f : A -> result B) l d n :
  array_map f l = Ok d -> array_map f (drop n l) = Ok (drop n d).
Proof.
  revert d n. induction l as [|x l IH]; intros d n H; simpl in H.
  - inversion H. by rewrite !drop_nil.
  - destruct (f x) as [y|] eqn:Hx; [|done].
    destruct (array_map f l) as [ys|] eqn:Hl; [|done].
    inversion H; subst. destruct n as [|n].
    + simpl. by rewrite Hx, Hl.
    + simpl. by apply IH.
Qed.

Lemma array_map_page_at {A B} (f : A -> result B) rows docs size i :
  array_map f rows = Ok docs ->
  array_map f (page_at size rows i) = Ok (page_at size docs i).
Proof.
  intros H. unfold page_at. by apply array_map_take, array_map_drop.
Qed.

(** The first record that does not convert ends the traversal. *)
Lemma array_map_throw {A B} (f : A -> result B) good gooddocs bad rest e :
  array_map f good = Ok gooddocs -> f bad = Throw e ->
  array_map f (good ++ bad :: rest) = Throw e.
Proof.
  revert gooddocs. induction good as [|x l IH]; intros d Hg Hb; simpl in *.
  - by rewrite Hb.
  - destruct (f x); [|done]. destruct (array_map f l) as [ys|] eqn:Hl; [|done].
    by rewrite (IH ys).
Qed.

(** ** Running the generators on their own *)

Lemma getAllClimbs_paged {St} size db :
  @getAllClimbs St size db = paged ClimbsWithArea (aggregateClimbs db) size.
Proof. reflexivity. Qed.

Lemma getAllAreas_paged {St} size db :
  @getAllAreas St size db = paged Areas (areas db) size.
Proof. reflexivity. Qed.

Section Paged.

Context {St T : Type}.
Variables (from : source) (rows : list T) (size : nat).

Lemma paged_return k (s : St) :
  page_at size rows k = [] ->
  paged from rows size k s =
    {| final := s; trace := [fetch_event from rows size k]; outcome_of := Returned None |}.
Proof.
  intros Hnil. unfold paged, fetch_event, mbind, M_bind, fetch. simpl.
  fold (page_at size rows k). rewrite Hnil. reflexivity.
Qed.

Lemma paged_yield k (s : St) :
  page_at size rows k <> [] ->
  paged from rows size k s =
    {| final := s; trace := [fetch_event from rows size k];
       outcome_of := Returned (Some (page_at size rows k, k + 1)) |}.
Proof.
  intros Hne. unfold paged, fetch_event, mbind, M_bind, fetch. simpl.
  fold (page_at size rows k).
  destruct (page_at size rows k) as [|x p] eqn:E; [done|]. reflexivity.
Qed.

(** The generator, drained from page [k]: it yields the pages that are
    left, fetches once more, and returns. *)
Lemma drain_paged n : forall fuel k (s : St),
  1 <= size -> pages_left size rows k = n -> n < fuel ->
  drain fuel (paged from rows size) k s =
    {| final := s;
       trace := fetch_event from rows size <$> seq k (S n);
       outcome_of := Returned (page_at size rows <$> seq k n) |}.
Proof.
  induction n as [|n IH]; intros fuel k s Hs Hn Hf;
    (destruct fuel as [|fuel]; [lia|]); simpl.
  - unfold mbind at 1, M_bind at 1.
    rewrite paged_return by (by apply pages_left_0). reflexivity.
  - destruct (pages_left_S size rows k n Hs Hn) as [Hne Hn'].
    unfold mbind at 1, M_bind at 1.
    rewrite (paged_yield k s Hne). simpl.
    unfold mbind at 1, M_bind at 1.
    rewrite (IH fuel (k + 1) s Hs Hn' ltac:(lia)). simpl.
    unfold after. simpl. rewrite app_nil_r.
    replace (k + 1) with (S k) by lia. reflexivity.
Qed.

End Paged.

(** ** The loop of [processMongoCollection] *)

Section Loop.

Context {St : Type} {client : Client St}.
Context {ChunkType SourceDataType : Type}.
Variables (schema : CollectionCreateSchema)
          (convert : SourceDataType -> result ChunkType)
          (asObject : ChunkType -> Object)
          (from : source) (rows : list SourceDataType) (size : nat).

Local Abbreviation upload := (upload_page (St := St) schema convert asObject).
Local Abbreviation loop_from :=
  (pass_loop (St := St) schema convert asObject from rows size).

Lemma uploadChunk_nonempty chunk s :
  chunk <> [] -> uploadChunk schema chunk s = import_run schema chunk s.
Proof.
  intros Hne. destruct chunk as [|x chunk]; [done|].
  unfold uploadChunk, import_run, try_catch, mbind, M_bind, log, call. simpl.
  destruct (documents_import (schema_name schema) (x :: chunk) s) as [s' [status|]];
    reflexivity.
Qed.

Lemma import_run_returns chunk s : outcome_of (import_run schema chunk s) = Returned tt.
Proof.
  unfold import_run.
  by destruct (documents_import (schema_name schema) chunk s) as [s' [status|]].
Qed.

Lemma import_run_imports chunk s :
  imports (trace (import_run schema chunk s)) = [(schema_name schema, chunk)].
Proof.
  unfold import_run.
  by destruct (documents_import (schema_name schema) chunk s) as [s' [status|]].
Qed.

Lemma import_run_quiet chunk s :
  provisions (trace (import_run schema chunk s)) = [] /\
  fetched (trace (import_run schema chunk s)) = [] /\
  Forall (fun ev => logs_type_error ev = false) (trace (import_run schema chunk s)).
Proof.
  unfold import_run.
  destruct (documents_import (schema_name schema) chunk s) as [s' [status|]];
    simpl; repeat split; repeat constructor.
Qed.

Lemma upload_page_throw page s e :
  array_map convert page = Throw e ->
  upload page s = {| final := s; trace := []; outcome_of := Rejected e |}.
Proof.
  intros He. unfold upload_page, mbind, M_bind. rewrite He. reflexivity.
Qed.

Lemma upload_page_ok page s docs :
  page <> [] -> array_map convert page = Ok docs ->
  upload page s = import_run schema (asObject <$> docs) s.
Proof.
  intros Hne Hok.
  assert (asObject <$> docs <> []) as Hdocs.
  { intros Hnil. apply fmap_nil_inv in Hnil. subst docs.
    apply array_map_length in Hok. by destruct page. }
  unfold upload_page, mbind, M_bind. rewrite Hok. simpl.
  rewrite uploadChunk_nonempty by done.
  unfold after. simpl. by destruct (import_run schema (asObject <$> docs) s).
Qed.

Lemma loop_return fuel k s :
  page_at size rows k = [] ->
  loop_from (S fuel) k s =
    {| final := s; trace := [fetch_event from rows size k]; outcome_of := Returned tt |}.
Proof.
  intros Hnil. unfold pass_loop. cbn [for_await]. unfold mbind at 1, M_bind at 1.
  rewrite paged_return by done. reflexivity.
Qed.

Lemma loop_throw fuel k s e :
  page_at size rows k <> [] ->
  array_map convert (page_at size rows k) = Throw e ->
  loop_from (S fuel) k s =
    {| final := s; trace := [fetch_event from rows size k]; outcome_of := Rejected e |}.
Proof.
  intros Hne He. unfold pass_loop. cbn [for_await]. unfold mbind at 1, M_bind at 1.
  rewrite paged_yield by done. cbn [outcome_of final].
  unfold mbind at 1, M_bind at 1. rewrite (upload_page_throw _ _ e) by done.
  reflexivity.
Qed.

Lemma loop_upload fuel k s docs :
  page_at size rows k <> [] ->
  array_map convert (page_at size rows k) = Ok docs ->
  loop_from (S fuel) k s =
    let up := import_run schema (asObject <$> docs) s in
    let rest := loop_from fuel (k + 1) (final up) in
    {| final := final rest;
       trace := fetch_event from rows size k :: trace up ++ trace rest;
       outcome_of := outcome_of rest |}.
Proof.
  intros Hne Hok. unfold pass_loop. cbn [for_await]. unfold mbind at 1, M_bind at 1.
  rewrite paged_yield by done. cbn [outcome_of final].
  unfold mbind at 1, M_bind at 1. rewrite (upload_page_ok _ _ docs) by done.
  rewrite import_run_returns. reflexivity.
Qed.

(** *** What holds of the loop however it ends *)

Lemma page_at_bounds k :
  page_at size rows k <> [] -> 1 <= length (page_at size rows k) <= size.
Proof.
  intros Hne. split.
  - destruct (page_at size rows k); [done|simpl; lia].
  - rewrite length_page_at. lia.
Qed.

Lemma pass_loop_inv fuel : forall k s, loop_inv schema size (loop_from fuel k s).
Proof.
  induction fuel as [|fuel IH]; intros k s.
  - unfold loop_inv. simpl. repeat split; try constructor. apply prefix_nil.
  - destruct (decide (page_at size rows k = [])) as [Hnil|Hne].
    { rewrite loop_return by done. unfold loop_inv, chunk_sizes, yielded.
      simpl. rewrite Hnil. simpl. repeat split; repeat constructor. }
    pose proof (page_at_bounds k Hne) as Hlen.
    destruct (array_map convert (page_at size rows k)) as [docs|e] eqn:Hmap.
    2:{ rewrite (loop_throw _ _ _ e) by done. unfold loop_inv, chunk_sizes, yielded.
        simpl. repeat split; repeat constructor. apply prefix_nil. }
    rewrite (loop_upload _ _ _ docs) by done. cbv zeta.
    set (up := import_run schema (asObject <$> docs) s).
    destruct (IH (k + 1) (final up)) as (Hchunks & Hprov & Hlog & Hout).
    destruct (import_run_quiet (asObject <$> docs) s) as (Hup1 & Hup2 & Hup3).
    fold up in Hup1, Hup2, Hup3.
    pose proof (import_run_imports (asObject <$> docs) s) as Himp. fold up in Himp.
    pose proof (array_map_length _ _ _ Hmap) as Hdocs.
    assert (length (asObject <$> docs) = length (page_at size rows k)) as Hsame
      by (by rewrite length_fmap).
    unfold loop_inv, chunk_sizes, yielded, imports, provisions, fetched in *.
    cbn [trace outcome_of omap list_omap fetch_event import_of provision_of fetched_of].
    rewrite !omap_app. fold (provisions (trace up)) in *.
    rewrite Himp, Hup1, Hup2. simpl.
    rewrite filter_cons_True by lia.
    repeat split.
    + constructor; [|done]. split; [done|]. simpl. lia.
    + done.
    + constructor; [done|]. by apply Forall_app.
    + rewrite Hsame.
      destruct (outcome_of (loop_from fuel (k + 1) (final up)));
        [by f_equal|by apply prefix_cons|done|by apply prefix_cons].
Qed.

End Loop.

Section LoopRuns.

Context {St : Type} {client : Client St}.
Context {ChunkType SourceDataType : Type}.
Variables (schema : CollectionCreateSchema)
          (convert : SourceDataType -> result ChunkType)
          (asObject : ChunkType -> Object)
          (from : source) (rows : list SourceDataType) (size : nat).

Hypothesis size_pos : 1 <= size.

Local Abbreviation run_loop := (pass_loop (St := St) schema convert asObject from rows size).

(** *** Every record converts: every page is uploaded, whatever the
    destination answers *)

Lemma pass_loop_complete docs n : forall fuel k s,
  array_map convert rows = Ok docs ->
  pages_left size rows k = n -> n < fuel ->
  outcome_of (run_loop fuel k s) = Returned tt /\
  imports (trace (run_loop fuel k s)) = chunk_at schema asObject size docs <$> seq k n /\
  fetched (trace (run_loop fuel k s)) =
    (fun i => length (page_at size rows i)) <$> seq k (S n).
Proof.
  induction n as [|n IH]; intros fuel k s Hdocs Hn Hf;
    (destruct fuel as [|fuel]; [lia|]).
  - pose proof (pages_left_0 size rows k size_pos Hn) as Hnil.
    rewrite loop_return by done. simpl. by rewrite Hnil.
  - destruct (pages_left_S size rows k n size_pos Hn) as [Hne Hn'].
    pose proof (array_map_page_at convert rows docs size k Hdocs) as Hpage.
    rewrite (loop_upload _ _ _ _ _ _ _ _ _ _ Hne Hpage). cbv zeta.
    set (up := import_run schema (asObject <$> page_at size docs k) s).
    destruct (IH fuel (k + 1) (final up) Hdocs Hn' ltac:(lia)) as (Hout & Himp & Hfetch).
    destruct (import_run_quiet schema (asObject <$> page_at size docs k) s)
      as (_ & Hup2 & _).
    pose proof (import_run_imports schema (asObject <$> page_at size docs k) s) as Hup.
    fold up in Hup, Hup2.
    unfold imports, fetched in *. cbn [trace outcome_of omap list_omap fetch_event].
    cbn [import_of fetched_of]. rewrite !omap_app, Hup, Hup2, Himp, Hfetch.
    replace (k + 1) with (S k) in * by lia. unfold fetch_event. done.
Qed.

(** *** A record that does not convert: the pass is rejected at its page *)

Variables (good rest : list SourceDataType) (bad : SourceDataType)
          (gooddocs : list ChunkType) (e : error).

Hypothesis rows_split : rows = good ++ bad :: rest.
Hypothesis good_ok : array_map convert good = Ok gooddocs.
Hypothesis bad_throws : convert bad = Throw e.

Lemma page_before_bad i :
  i < length good / size ->
  page_at size rows i = page_at size good i /\ page_at size rows i <> [].
Proof.
  intros Hi.
  pose proof (Nat.div_mod_eq (length good) size) as Hdm.
  assert ((i + 1) * size <= length good) as Hle by nia.
  assert (page_at size rows i = page_at size good i) as Heq.
  { unfold page_at. rewrite rows_split.
    rewrite drop_app_le by lia. rewrite take_app_le; [done|].
    rewrite length_drop. lia. }
  split; [done|]. rewrite Heq. intros Hnil.
  apply (f_equal length) in Hnil. rewrite length_page_at in Hnil.
  simpl in Hnil. lia.
Qed.

Lemma page_of_bad :
  page_at size rows (length good / size) <> [] /\
  array_map convert (page_at size rows (length good / size)) = Throw e.
Proof.
  pose proof (Nat.div_mod_eq (length good) size) as Hdm.
  pose proof (Nat.mod_upper_bound (length good) size ltac:(lia)) as Hr.
  set (kb := length good / size) in *.
  assert (page_at size rows kb =
          drop (kb * size) good ++ bad :: take (size - S (length good - kb * size)) rest)
    as Heq.
  { unfold page_at. rewrite rows_split.
    rewrite drop_app_le by lia. rewrite take_app, length_drop.
    rewrite take_ge by (rewrite length_drop; lia).
    replace (size - (length good - kb * size))
      with (S (size - S (length good - kb * size))) by lia.
    reflexivity. }
  rewrite Heq. split.
  - by destruct (drop (kb * size) good).
  - eapply array_map_throw; [|done]. by apply array_map_drop.
Qed.

Lemma pass_loop_rejects d : forall fuel k s,
  k + d = length good / size -> d < fuel ->
  outcome_of (run_loop fuel k s) = Rejected e /\
  imports (trace (run_loop fuel k s)) = chunk_at schema asObject size gooddocs <$> seq k d.
Proof.
  induction d as [|d IH]; intros fuel k s Hk Hf;
    (destruct fuel as [|fuel]; [lia|]).
  - destruct page_of_bad as [Hne Hthrow]. replace (k + 0) with k in Hk by lia.
    rewrite <- Hk in Hne, Hthrow.
    by rewrite (loop_throw _ _ _ _ _ _ _ _ _ e Hne Hthrow).
  - destruct (page_before_bad k ltac:(lia)) as [Heq Hne].
    pose proof (array_map_page_at convert good gooddocs size k good_ok) as Hpage.
    rewrite <- Heq in Hpage.
    rewrite (loop_upload _ _ _ _ _ _ _ _ _ _ Hne Hpage). cbv zeta.
    set (up := import_run schema (asObject <$> page_at size gooddocs k) s).
    destruct (IH fuel (k + 1) (final up) ltac:(lia) ltac:(lia)) as (Hout & Himp).
    pose proof (import_run_imports schema (asObject <$> page_at size gooddocs k) s) as Hup.
    fold up in Hup.
    unfold imports in *. cbn [trace outcome_of omap list_omap fetch_event import_of].
    rewrite !omap_app, Hup, Himp.
    replace (k + 1) with (S k) in * by lia. unfold fetch_event. done.
Qed.

End LoopRuns.

(** ** Provisioning, and a whole pass *)

Section Pass.

Context {St : Type} {client : Client St}.
Variables climbSchema areaSchema : CollectionCreateSchema.

Lemma checkCollection_run schema s :
  checkCollection schema s = provision_run schema s.
Proof.
  unfold checkCollection, provision_run, try_catch, mbind, M_bind, log, call,
    gracefulExit.
  destruct (collection_delete (schema_name schema) s) as [s1 [st1|]]; simpl;
    destruct (collections_create schema s1) as [s2 [st2|]]; reflexivity.
Qed.

Lemma provision_run_outcome schema s :
  outcome_of (provision_run schema s) = Returned tt \/
  outcome_of (provision_run schema s) = Exited 0.
Proof.
  unfold provision_run.
  destruct (collection_delete (schema_name schema) s) as [s1 dropped].
  destruct (collections_create schema s1) as [s2 [st2|]]; simpl; auto.
Qed.

Lemma provision_run_trace schema s :
  provisions (trace (provision_run schema s)) = [schema_name schema; schema_name schema] /\
  imports (trace (provision_run schema s)) = [] /\
  fetched (trace (provision_run schema s)) = [] /\
  Forall (fun ev => logs_type_error ev = false) (trace (provision_run schema s)).
Proof.
  unfold provision_run.
  destruct (collection_delete (schema_name schema) s) as [s1 [st1|]];
    destruct (collections_create schema s1) as [s2 [st2|]]; simpl;
    repeat split; repeat constructor.
Qed.

Context {ChunkType SourceDataType : Type}.
Variables (schema : CollectionCreateSchema)
          (convert : SourceDataType -> result ChunkType)
          (asObject : ChunkType -> Object)
          (from : source) (rows : list SourceDataType) (size : nat).

Local Abbreviation pass fuel :=
  (processMongoCollection areaSchema fuel schema convert asObject (paged from rows size)).
Local Abbreviation the_loop :=
  (pass_loop (St := St) schema convert asObject from rows size).

(** The pass: the provisioning of [areaSchema], then the loop. *)
Lemma processMongoCollection_run fuel s :
  pass fuel s =
    let p := provision_run areaSchema s in
    match outcome_of p with
    | Returned _ => after p (the_loop fuel 0 (final p))
    | Rejected e => stop p (Rejected e)
    | Exited code => stop p (Exited code)
    | Unfinished => stop p Unfinished
    end.
Proof.
  unfold processMongoCollection. unfold mbind at 1, M_bind at 1.
  rewrite checkCollection_run. reflexivity.
Qed.

(** A rejected [create] ends the pass there: nothing is read and nothing
    is imported, and the process exits with the code of [gracefulExit()]. *)
Lemma processMongoCollection_create_rejected fuel s status :
  (collections_create areaSchema
     (collection_delete (schema_name areaSchema) s).1).2 = Some status ->
  pass fuel s = provision_run areaSchema s /\
  outcome_of (pass fuel s) = Exited 0 /\
  after_failed_create (trace (pass fuel s)) = Some [Log Error (Caught (ClientError status))].
Proof.
  intros Hrej. rewrite processMongoCollection_run. cbv zeta.
  unfold provision_run in *.
  destruct (collection_delete (schema_name areaSchema) s) as [s1 dropped].
  simpl in Hrej.
  destruct (collections_create areaSchema s1) as [s2 created]. simpl in Hrej.
  subst created. simpl. by destruct dropped.
Qed.

(** When the provisioning goes through, the pass is the loop. *)
Lemma processMongoCollection_provisioned fuel s :
  outcome_of (checkCollection areaSchema s) = Returned tt ->
  outcome_of (pass fuel s) =
    outcome_of (the_loop fuel 0 (final (provision_run areaSchema s))) /\
  imports (trace (pass fuel s)) =
    imports (trace (the_loop fuel 0 (final (provision_run areaSchema s)))) /\
  Forall (fun ev => logs_type_error ev = false) (trace (pass fuel s)).
Proof.
  rewrite checkCollection_run. intros Hok.
  rewrite processMongoCollection_run. cbv zeta. rewrite Hok.
  destruct (provision_run_trace areaSchema s) as (_ & Himp & _ & Hlog).
  destruct (pass_loop_inv schema convert asObject from rows size fuel 0
              (final (provision_run areaSchema s))) as (_ & _ & Hlog' & _).
  unfold after, imports in *. simpl. rewrite omap_app, Himp.
  repeat split. by apply Forall_app.
Qed.

(** However the pass ends: it drops and creates the collection of
    [areaSchema] and no other, imports into the collection of [schema]
    chunks of one to [size] documents, one per page yielded (all of them
    when it returns), and logs no [TypeError]. *)
Lemma processMongoCollection_inv fuel s :
  provisions (trace (pass fuel s)) = [schema_name areaSchema; schema_name areaSchema] /\
  Forall (chunk_ok schema size) (imports (trace (pass fuel s))) /\
  Forall (fun ev => logs_type_error ev = false) (trace (pass fuel s)) /\
  match outcome_of (pass fuel s) with
  | Returned _ => chunk_sizes (trace (pass fuel s)) = yielded (trace (pass fuel s))
  | _ => chunk_sizes (trace (pass fuel s)) `prefix_of` yielded (trace (pass fuel s))
  end.
Proof.
  rewrite processMongoCollection_run. cbv zeta.
  destruct (provision_run_trace areaSchema s) as (Hprov & Himp & Hfetch & Hlog).
  destruct (provision_run_outcome areaSchema s) as [Hout|Hout]; rewrite Hout.
  - destruct (pass_loop_inv schema convert asObject from rows size fuel 0
                (final (provision_run areaSchema s))) as (Hchunks & Hprov' & Hlog' & Hout').
    unfold after, chunk_sizes, yielded, imports, provisions, fetched in *. simpl.
    rewrite !omap_app, Hprov, Hprov', Himp, Hfetch. simpl.
    repeat split; [done|by apply Forall_app|].
    destruct (outcome_of (the_loop fuel 0 (final (provision_run areaSchema s))));
      done.
  - unfold stop, chunk_sizes, yielded. simpl. rewrite Himp, Hfetch. simpl.
    repeat split; [done|constructor|done|done].
Qed.

End Pass.

(** * What the specification states *)

(** ** Pagination *)

Lemma page_at_nonempty {T} size (rows : list T) i :
  1 <= size -> i < div_ceil (length rows) size -> 1 <= length (page_at size rows i).
Proof.
  intros Hs Hi. rewrite length_page_at. rewrite div_ceil_quot in Hi by done.
  pose proof (Nat.div_mod_eq (length rows) size) as Hdm.
  pose proof (Nat.mod_upper_bound (length rows) size ltac:(lia)) as Hr.
  destruct (Nat.eqb_spec (length rows mod size) 0); nia.
Qed.

Lemma div_ceil_covers n size : 1 <= size -> n <= div_ceil n size * size.
Proof.
  intros Hs. rewrite div_ceil_quot by done.
  pose proof (Nat.div_mod_eq n size) as Hdm.
  pose proof (Nat.mod_upper_bound n size ltac:(lia)) as Hr.
  destruct (Nat.eqb_spec (n mod size) 0); nia.
Qed.

Lemma concat_pages {T} size (rows : list T) n :
  concat (page_at size rows <$> seq 0 n) = take (n * size) rows.
Proof.
  induction n as [|n IH]; [done|].
  rewrite seq_S, fmap_app, concat_app, IH. simpl. rewrite app_nil_r.
  unfold page_at. rewrite take_take_drop. f_equal. lia.
Qed.

Lemma paged_paginates {St T} from size (rows : list T) fuel (s : St) :
  1 <= size -> div_ceil (length rows) size < fuel ->
  paginates from size rows s (drain fuel (paged from rows size) 0 s).
Proof.
  intros Hs Hf. unfold paginates. cbv zeta.
  rewrite (drain_paged from rows size (div_ceil (length rows) size) fuel 0 s Hs);
    [|unfold pages_left; f_equal; lia|done].
  pose proof (div_ceil_covers (length rows) size Hs) as Hcov.
  repeat split.
  - rewrite concat_pages. by apply take_ge.
  - intros i Hi. by apply page_at_full.
  - intros i Hi. by apply page_at_last.
  - intros i Hi. by apply page_at_nonempty.
  - rewrite length_page_at. lia.
Qed.

(** C4: for every page size of at least one and every source collection,
    both generators yield [ceil (N / size)] pages, every page but the last
    full and the last holding [N mod size] records (a full page when that
    is zero), fetched at the offsets [pageIndex * size], and they return
    at the first fetch that comes back empty. *)
Theorem generators_paginate {St} (size fuel : nat) (db : SourceDB) (s : St) :
  1 <= size ->
  div_ceil (length (aggregateClimbs db)) size < fuel ->
  div_ceil (length (areas db)) size < fuel ->
  paginates ClimbsWithArea size (aggregateClimbs db) s
    (drain fuel (getAllClimbs size db) 0 s) /\
  paginates Areas size (areas db) s
    (drain fuel (getAllAreas size db) 0 s).
Proof.
  intros Hs Hc Ha. rewrite getAllClimbs_paged, getAllAreas_paged.
  split; by apply paged_paginates.
Qed.

Lemma generators_paginate_witness :
  paginates ClimbsWithArea 2 (aggregateClimbs Sample.db) tt
    (drain 4 (getAllClimbs 2 Sample.db) 0 tt) /\
  paginates Areas 2 (areas Sample.db) tt
    (drain 4 (getAllAreas 2 Sample.db) 0 tt).
Proof.
  apply (generators_paginate 2 4 Sample.db tt); [lia|vm_compute; lia|vm_compute; lia].
Defined.

(** Three areas by pages of two: a full page, a page of one, and the
    empty fetch. *)
Example three_areas_by_two :
  let r := drain 4 (getAllAreas 2 Sample.db) 0 tt in
  outcome_of r = Returned [take 2 (areas Sample.db); drop 2 (areas Sample.db)] /\
  trace r = [Fetch Areas 0 2 2; Fetch Areas 2 2 1; Fetch Areas 4 2 0].
Proof. by vm_compute. Qed.

(** ** The transformers *)

Lemma geoToLatLng_populated p :
  (2 <=? length (coordinates p))%nat = true ->
  exists lat lng, geoToLatLng (Some p) = Ok (Some lat, Some lng).
Proof.
  intros H. apply Nat.leb_le in H. destruct p as [[|lng [|lat more]]]; simpl in H; try lia.
  by exists lat, lng.
Qed.

(** C5: on a well-formed record each transformer returns a document, the
    same one every time, in which a missing climb description, a missing
    first-ascent text and a missing area name have become the empty
    string, and both slots of the position are filled. *)
Theorem transformers_total_with_defaults
    (c : ClimbTypes.ClimbExtType) (a : AreaTypes.AreaType) :
  Climb.well_formed c = true ->
  Area.well_formed a = true ->
  exists ci ai,
    Climb.mongoToTypeSense c = Ok ci /\
    Area.mongoToTypeSense a = Ok ai /\
    (forall ci', Climb.mongoToTypeSense c = Ok ci' -> ci' = ci) /\
    (forall ai', Area.mongoToTypeSense a = Ok ai' -> ai' = ai) /\
    (Climb.description_of c = None -> climbDesc ci = "") /\
    (forall d, Climb.description_of c = Some d -> climbDesc ci = d) /\
    (ClimbTypes.fa (ClimbTypes.climb c) = None -> TypesenseSchemas.fa ci = "") /\
    (forall f, ClimbTypes.fa (ClimbTypes.climb c) = Some f -> TypesenseSchemas.fa ci = f) /\
    (AreaTypes.area_name a = None -> TypesenseSchemas.name ai = "") /\
    (forall n, AreaTypes.area_name a = Some n -> TypesenseSchemas.name ai = n) /\
    (exists lat lng, cragLatLng ci = (Some lat, Some lng)) /\
    (exists lat lng, areaLatLng ai = (Some lat, Some lng)).
Proof.
  intros Hc Ha.
  unfold Climb.well_formed in Hc. unfold Area.well_formed in Ha.
  destruct (ClimbTypes.metadata (ClimbTypes.climb c)) as [cmd|] eqn:Hcmd; [|done].
  destruct (ClimbTypes.content (ClimbTypes.climb c)) as [ct|] eqn:Hct; [|done].
  destruct (ClimbTypes.climb_id cmd) as [cid|] eqn:Hcid; [|done].
  destruct (ClimbTypes.lnglat cmd) as [cp|] eqn:Hcp; [|done].
  destruct (AreaTypes.metadata a) as [amd|] eqn:Hamd; [|done].
  destruct (AreaTypes.area_id amd) as [aid|] eqn:Haid; [|done].
  destruct (AreaTypes.lnglat amd) as [ap|] eqn:Hap; [|done].
  destruct (geoToLatLng_populated cp Hc) as (clat & clng & Hcgeo).
  destruct (geoToLatLng_populated ap Ha) as (alat & alng & Hageo).
  unfold Climb.mongoToTypeSense, Area.mongoToTypeSense, Climb.description_of.
  rewrite Hcmd, Hct, Hamd. cbn [prop result_bind].
  rewrite Hcid, Hcp, Haid, Hap. cbn [prop result_bind].
  rewrite Hcgeo, Hageo. cbn [result_bind mbind option_bind].
  eexists _, _. repeat split.
  - intros ci' H. by inversion H.
  - intros ai' H. by inversion H.
  - simpl. by intros ->.
  - simpl. by intros d ->.
  - simpl. by intros ->.
  - simpl. by intros f ->.
  - simpl. by intros ->.
  - simpl. by intros n ->.
  - simpl. by exists clat, clng.
  - simpl. by exists alat, alng.
Qed.

Lemma transformers_total_with_defaults_witness :
  exists ci ai,
    Climb.mongoToTypeSense sample_climb = Ok ci /\
    Area.mongoToTypeSense unnamed_area = Ok ai /\
    climbDesc ci = "" /\ TypesenseSchemas.fa ci = "" /\ TypesenseSchemas.name ai = "".
Proof.
  destruct (transformers_total_with_defaults sample_climb unnamed_area)
    as (ci & ai & Hc & Ha & _ & _ & Hdesc & _ & Hfa & _ & Hname & _);
    [reflexivity|reflexivity|].
  exists ci, ai. repeat split; [done|done|by apply Hdesc|by apply Hfa|by apply Hname].
Defined.

(** C6: a point whose coordinate list is the pair [lng, lat] is converted
    to the pair [lat, lng], both values unchanged. *)
Theorem geoToLatLng_swaps (lng lat : number) :
  geoToLatLng (Some {| coordinates := [lng; lat] |}) = Ok (Some lat, Some lng).
Proof. reflexivity. Qed.

(** ** The orchestrator *)

(** C3: when the host address or the API key is absent or empty,
    [onDBConnected] ends the process with exit code 1 and has done
    nothing by then: no call to the destination, no read, no log line. *)
Theorem missing_credentials_exit {St} {client : Client St}
    (climbSchema areaSchema : CollectionCreateSchema)
    (env : gmap string string) (argv : list string) (fuel : nat)
    (db : SourceDB) (s : St) :
  env !! "TYPESENSE_NODE" = None \/ env !! "TYPESENSE_NODE" = Some "" \/
  env !! "TYPESENSE_API_KEY" = None \/ env !! "TYPESENSE_API_KEY" = Some "" ->
  onDBConnected climbSchema areaSchema env argv fuel db s =
    {| final := s; trace := []; outcome_of := Exited 1 |}.
Proof.
  intros Hmissing. unfold onDBConnected. cbv zeta.
  assert (bool_decide (nullish (env !! "TYPESENSE_NODE") "" = "")
          || bool_decide (nullish (env !! "TYPESENSE_API_KEY") "" = "") = true) as ->.
  { apply orb_true_iff.
    destruct Hmissing as [H|[H|[H|H]]]; rewrite H; simpl; auto. }
  reflexivity.
Qed.

Lemma missing_credentials_exit_witness :
  onDBConnected (client := Server.client) Sample.climbSchema Sample.areaSchema
    {[ "TYPESENSE_NODE" := "search.example.org" ]} ["--climbs"; "--areas"] 4 Sample.db ∅ =
    {| final := ∅; trace := []; outcome_of := Exited 1 |}.
Proof.
  apply missing_credentials_exit. right; right; left. reflexivity.
Defined.

(** ** Upload faults and transform failures *)

Section Uploader.

Context {St : Type} {client : Client St}.
Variable schema : CollectionCreateSchema.

Lemma uploadChunk_empty (s : St) :
  uploadChunk schema [] s = {| final := s; trace := []; outcome_of := Returned tt |}.
Proof. reflexivity. Qed.

Lemma uploadChunk_returns chunk (s : St) :
  outcome_of (uploadChunk schema chunk s) = Returned tt.
Proof.
  destruct chunk as [|x chunk]; [done|].
  rewrite uploadChunk_nonempty by done. apply import_run_returns.
Qed.

Lemma uploadChunk_rejected chunk (s : St) status :
  chunk <> [] ->
  (documents_import (schema_name schema) chunk s).2 = Some status ->
  trace (uploadChunk schema chunk s) =
    [ Log Info (Pushing (length chunk));
      Import (schema_name schema) chunk (Some status);
      Log Error (Caught (ClientError status)) ].
Proof.
  intros Hne Hrej. rewrite uploadChunk_nonempty by done. unfold import_run.
  destruct (documents_import (schema_name schema) chunk s) as [s' rejected].
  simpl in Hrej. by subst rejected.
Qed.

End Uploader.

(** C7: [uploadChunk] does nothing with an empty batch and never fails
    its caller: a rejected import is logged and that is all.  So in a pass
    over a source whose records all convert, every chunk is attempted, one
    per page and in order, and the pass returns, whichever imports the
    destination rejects. *)
Theorem chunk_faults_are_isolated {St} {client : Client St} {ChunkType SourceDataType}
    (areaSchema schema : CollectionCreateSchema)
    (convert : SourceDataType -> result ChunkType) (asObject : ChunkType -> Object)
    (dataGenerator : AsyncGenerator St (list SourceDataType))
    (from : source) (rows : list SourceDataType) (docs : list ChunkType)
    (size fuel : nat) (s : St) :
  dataGenerator = paged from rows size ->
  1 <= size ->
  array_map convert rows = Ok docs ->
  outcome_of (checkCollection areaSchema s) = Returned tt ->
  div_ceil (length rows) size < fuel ->
  (forall s', uploadChunk schema [] s' =
                {| final := s'; trace := []; outcome_of := Returned tt |}) /\
  (forall chunk s', outcome_of (uploadChunk schema chunk s') = Returned tt) /\
  (forall chunk s' status,
     chunk <> [] ->
     (documents_import (schema_name schema) chunk s').2 = Some status ->
     trace (uploadChunk schema chunk s') =
       [ Log Info (Pushing (length chunk));
         Import (schema_name schema) chunk (Some status);
         Log Error (Caught (ClientError status)) ]) /\
  let r := processMongoCollection areaSchema fuel schema convert asObject dataGenerator s in
  outcome_of r = Returned tt /\
  imports (trace r) =
    chunk_at schema asObject size docs <$> seq 0 (div_ceil (length rows) size).
Proof.
  intros -> Hs Hdocs Hprov Hf.
  split; [apply uploadChunk_empty|].
  split; [apply uploadChunk_returns|].
  split; [apply uploadChunk_rejected|].
  cbv zeta.
  destruct (processMongoCollection_provisioned areaSchema schema convert asObject
              from rows size fuel s Hprov) as (Hout & Himp & _).
  rewrite Hout, Himp.
  destruct (pass_loop_complete schema convert asObject from rows size Hs docs
              (div_ceil (length rows) size) fuel 0
              (final (provision_run areaSchema s)) Hdocs) as (H1 & H2 & _);
    [unfold pages_left; f_equal; lia|done|done].
Qed.

(** Three areas by chunks of two, the first import rejected: the second
    chunk is imported all the same, and the pass returns. *)
Lemma chunk_faults_are_isolated_witness :
  let r := processMongoCollection (client := Flaky.client) Sample.areaSchema 4
             Sample.areaSchema Area.mongoToTypeSense AreaObject
             (getAllAreas 2 Sample.db) 1 in
  outcome_of r = Returned tt /\
  imports (trace r) =
    [ ("areas", AreaObject <$> take 2 sample_area_docs);
      ("areas", AreaObject <$> drop 2 sample_area_docs) ] /\
  Import "areas" (AreaObject <$> take 2 sample_area_docs) (Some 503) ∈ trace r /\
  Import "areas" (AreaObject <$> drop 2 sample_area_docs) None ∈ trace r.
Proof.
  destruct (chunk_faults_are_isolated (client := Flaky.client)
              Sample.areaSchema Sample.areaSchema Area.mongoToTypeSense AreaObject
              (getAllAreas 2 Sample.db) Areas (areas Sample.db) sample_area_docs 2 4 1)
    as (_ & _ & _ & Hout & Himp);
    [reflexivity|lia|reflexivity|reflexivity|vm_compute; lia|].
  cbv zeta. split; [exact Hout|]. split; [exact Himp|].
  split; vm_compute; repeat constructor.
Defined.

(** C8: a record that does not convert (one without its identifier, for
    either transformer) rejects the whole pass with its error: the chunks
    of the pages before it have been imported, its own page and the pages
    after it never are, and no [catch] has logged the error. *)
Theorem transform_failure_propagates {St} {client : Client St} {ChunkType SourceDataType}
    (areaSchema schema : CollectionCreateSchema)
    (convert : SourceDataType -> result ChunkType) (asObject : ChunkType -> Object)
    (dataGenerator : AsyncGenerator St (list SourceDataType))
    (from : source) (good rest : list SourceDataType) (bad : SourceDataType)
    (gooddocs : list ChunkType) (property : string)
    (size fuel : nat) (s : St) :
  dataGenerator = paged from (good ++ bad :: rest) size ->
  1 <= size ->
  array_map convert good = Ok gooddocs ->
  convert bad = Throw (TypeError property) ->
  outcome_of (checkCollection areaSchema s) = Returned tt ->
  length good / size < fuel ->
  (forall doc md, ClimbTypes.metadata (ClimbTypes.climb doc) = Some md ->
     ClimbTypes.climb_id md = None ->
     Climb.mongoToTypeSense doc = Throw (TypeError "toUUID")) /\
  (forall doc md, AreaTypes.metadata doc = Some md ->
     AreaTypes.area_id md = None ->
     Area.mongoToTypeSense doc = Throw (TypeError "toUUID")) /\
  let r := processMongoCollection areaSchema fuel schema convert asObject dataGenerator s in
  outcome_of r = Rejected (TypeError property) /\
  imports (trace r) =
    chunk_at schema asObject size gooddocs <$> seq 0 (length good / size) /\
  Forall (fun ev => logs_type_error ev = false) (trace r).
Proof.
  intros -> Hs Hgood Hbad Hprov Hf.
  split.
  { intros doc md Hmd Hid. unfold Climb.mongoToTypeSense.
    rewrite Hmd. cbn [prop result_bind]. by rewrite Hid. }
  split.
  { intros doc md Hmd Hid. unfold Area.mongoToTypeSense.
    rewrite Hmd. cbn [prop result_bind]. by rewrite Hid. }
  cbv zeta.
  destruct (processMongoCollection_provisioned areaSchema schema convert asObject
              from (good ++ bad :: rest) size fuel s Hprov) as (Hout & Himp & Hlog).
  rewrite Hout, Himp.
  destruct (pass_loop_rejects schema convert asObject from (good ++ bad :: rest) size
              Hs good rest bad gooddocs (TypeError property) eq_refl Hgood Hbad
              (length good / size) fuel 0 (final (provision_run areaSchema s)))
    as (H1 & H2); [done|done|done].
Qed.

(** Three areas by chunks of one, the second without its identifier: the
    first is imported, then the pass is rejected. *)
Lemma transform_failure_propagates_witness :
  let rows := [Sample.area "a-1" "A" ["A"]; Sample.nameless_area;
               Sample.area "a-3" "C" ["A"; "B"; "C"]] in
  let r := processMongoCollection (client := Server.client) Sample.areaSchema 4
             Sample.areaSchema Area.mongoToTypeSense AreaObject
             (getAllAreas 1 {| climbs := []; areas := rows |}) ∅ in
  outcome_of r = Rejected (TypeError "toUUID") /\
  imports (trace r) = [("areas", AreaObject <$> take 1 sample_area_docs)].
Proof.
  destruct (transform_failure_propagates (client := Server.client)
              Sample.areaSchema Sample.areaSchema Area.mongoToTypeSense AreaObject
              (getAllAreas 1 {| climbs := [];
                                areas := [Sample.area "a-1" "A" ["A"]; Sample.nameless_area;
                                          Sample.area "a-3" "C" ["A"; "B"; "C"]] |})
              Areas [Sample.area "a-1" "A" ["A"]] [Sample.area "a-3" "C" ["A"; "B"; "C"]]
              Sample.nameless_area (take 1 sample_area_docs) "toUUID" 1 4 ∅)
    as (_ & _ & Hout & Himp & _);
    [reflexivity|lia|reflexivity|reflexivity|reflexivity|vm_compute; lia|].
  cbv zeta. split; [exact Hout|exact Himp].
Defined.

(** ** The size of the chunks *)

Section Imports.

Context {St : Type}.
Variable P : string * list Object -> Prop.

Lemma imports_all_bind {A B} (m : M St A) (k : A -> M St B) :
  imports_all P m -> (forall a, imports_all P (k a)) -> imports_all P (m ≫= k).
Proof.
  intros Hm Hk s. unfold mbind, M_bind. cbv zeta.
  destruct (outcome_of (m s)) eqn:Hout; simpl; try apply Hm.
  unfold imports. rewrite omap_app. apply Forall_app. split; [apply Hm|apply Hk].
Qed.

Lemma imports_all_ret {A} (a : A) : imports_all (St := St) P (mret a).
Proof. intros s. constructor. Qed.

Lemma imports_all_log lvl m : imports_all (St := St) P (log lvl m).
Proof. intros s. constructor. Qed.

Lemma imports_all_exit code : imports_all (St := St) P (gracefulExit code).
Proof. intros s. constructor. Qed.

End Imports.

Create HintDb imports.

#[local] Hint Resolve imports_all_ret imports_all_log imports_all_exit : imports.

Lemma paged_yields_bounded {St T} from (rows : list T) size k (s : St) :
  yields_bounded size (paged from rows size k s).
Proof.
  unfold yields_bounded.
  destruct (decide (page_at size rows k = [])) as [Hnil|Hne].
  - by rewrite paged_return.
  - rewrite paged_yield by done. simpl. by apply page_at_bounds.
Qed.

Section Bounded.

Context {St : Type} {client : Client St}.
Variables climbSchema areaSchema : CollectionCreateSchema.

Lemma updateClimbTypesense_bounded fuel db :
  imports_all within_chunkSize (updateClimbTypesense (St := St) climbSchema areaSchema fuel db).
Proof.
  intros s. unfold updateClimbTypesense. rewrite getAllClimbs_paged.
  destruct (processMongoCollection_inv areaSchema climbSchema Climb.mongoToTypeSense
              ClimbObject ClimbsWithArea (aggregateClimbs db) chunkSize fuel s)
    as (_ & Hchunks & _).
  eapply Forall_impl; [exact Hchunks|]. by intros c [_ Hc].
Qed.

Lemma updateAreaTypesense_bounded fuel db :
  imports_all within_chunkSize (updateAreaTypesense (St := St) areaSchema fuel db).
Proof.
  intros s. unfold updateAreaTypesense. rewrite getAllAreas_paged.
  destruct (processMongoCollection_inv areaSchema areaSchema Area.mongoToTypeSense
              AreaObject Areas (areas db) chunkSize fuel s)
    as (_ & Hchunks & _).
  eapply Forall_impl; [exact Hchunks|]. by intros c [_ Hc].
Qed.

Lemma onDBConnected_bounded env argv fuel db :
  imports_all within_chunkSize
    (onDBConnected (St := St) climbSchema areaSchema env argv fuel db).
Proof.
  unfold onDBConnected. cbv zeta.
  apply imports_all_bind; [case_match; auto with imports|intros _].
  apply imports_all_bind; [auto with imports|intros _].
  apply imports_all_bind.
  { case_match; [|auto with imports].
    apply imports_all_bind; [apply updateClimbTypesense_bounded|auto with imports]. }
  intros _. apply imports_all_bind; [|auto with imports].
  case_match; [|auto with imports].
  apply imports_all_bind; [apply updateAreaTypesense_bounded|auto with imports].
Qed.

End Bounded.

(** C10: no bulk import of a run carries fewer than one or more than
    5000 documents: the generators yield only pages of one to [chunkSize]
    records, and each pass imports one chunk per page yielded, of the size
    of that page. *)
Theorem chunks_within_chunkSize {St} {client : Client St}
    (climbSchema areaSchema : CollectionCreateSchema)
    (env : gmap string string) (argv : list string) (fuel : nat)
    (db : SourceDB) (s : St) :
  chunkSize = 5000 /\
  Forall (fun c : string * list Object => 1 <= length c.2 <= chunkSize)
    (imports (trace (onDBConnected climbSchema areaSchema env argv fuel db s))) /\
  (forall k, yields_bounded chunkSize (getAllClimbs chunkSize db k s)) /\
  (forall k, yields_bounded chunkSize (getAllAreas chunkSize db k s)) /\
  one_chunk_per_page (updateClimbTypesense climbSchema areaSchema fuel db s) /\
  one_chunk_per_page (updateAreaTypesense areaSchema fuel db s).
Proof.
  split; [reflexivity|].
  split; [apply onDBConnected_bounded|].
  split; [intros k; rewrite getAllClimbs_paged; apply paged_yields_bounded|].
  split; [intros k; rewrite getAllAreas_paged; apply paged_yields_bounded|].
  unfold one_chunk_per_page, updateClimbTypesense, updateAreaTypesense.
  rewrite getAllClimbs_paged, getAllAreas_paged. split.
  - by destruct (processMongoCollection_inv areaSchema climbSchema Climb.mongoToTypeSense
                   ClimbObject ClimbsWithArea (aggregateClimbs db) chunkSize fuel s)
      as (_ & _ & _ & H).
  - by destruct (processMongoCollection_inv areaSchema areaSchema Area.mongoToTypeSense
                   AreaObject Areas (areas db) chunkSize fuel s)
      as (_ & _ & _ & H).
Qed.

(** ** Which collection a pass refreshes *)

(** Whatever the destination answers, the climbs pass drops and creates
    the collection of [areaSchema], and imports into the collection of
    [climbSchema]. *)
Lemma climbs_pass_provisions_areaSchema {St} {client : Client St}
    (climbSchema areaSchema : CollectionCreateSchema) fuel db (s : St) :
  let r := updateClimbTypesense climbSchema areaSchema fuel db s in
  provisions (trace r) = [schema_name areaSchema; schema_name areaSchema] /\
  Forall (fun c : string * list Object => c.1 = schema_name climbSchema) (imports (trace r)).
Proof.
  cbv zeta. unfold updateClimbTypesense. rewrite getAllClimbs_paged.
  destruct (processMongoCollection_inv areaSchema climbSchema Climb.mongoToTypeSense
              ClimbObject ClimbsWithArea (aggregateClimbs db) chunkSize fuel s)
    as (Hprov & Hchunks & _).
  split; [done|]. eapply Forall_impl; [exact Hchunks|]. by intros c [Hc _].
Qed.

Section OnTheServer.

Context {ChunkType SourceDataType : Type}.
Variables (areaSchema schema : CollectionCreateSchema)
          (convert : SourceDataType -> result ChunkType)
          (asObject : ChunkType -> Object)
          (from : source) (rows : list SourceDataType) (docs : list ChunkType)
          (size : nat).

Hypothesis size_pos : 1 <= size.
Hypothesis rows_convert : array_map convert rows = Ok docs.

Local Abbreviation name := (schema_name schema).

Lemma server_import_run chunk (st : gmap string (list Object)) acc :
  st !! name = Some acc ->
  final (import_run (client := Server.client) schema chunk st) = <[name := acc ++ chunk]> st.
Proof.
  intros Hacc. unfold import_run. simpl. unfold Server.import_documents.
  by rewrite Hacc.
Qed.

(** The loop appends, page after page, what is left of the source to
    what the collection holds. *)
Lemma server_loop_final n : forall fuel k (st : gmap string (list Object)) acc,
  pages_left size rows k = n -> n < fuel ->
  st !! name = Some acc ->
  final (pass_loop (client := Server.client) schema convert asObject from rows size fuel k st)
    = <[name := acc ++ (asObject <$> drop (k * size) docs)]> st.
Proof.
  pose proof (array_map_length _ _ _ rows_convert) as Hlen.
  induction n as [|n IH]; intros fuel k st acc Hn Hf Hacc;
    (destruct fuel as [|fuel]; [lia|]).
  - rewrite loop_return by (by apply pages_left_0).
    apply div_ceil_pos in Hn; [|done].
    rewrite drop_ge by lia. simpl. rewrite app_nil_r. by rewrite insert_id.
  - destruct (pages_left_S size rows k n size_pos Hn) as [Hne Hn'].
    pose proof (array_map_page_at convert rows docs size k rows_convert) as Hpage.
    rewrite (loop_upload _ _ _ _ _ _ _ _ _ _ Hne Hpage). cbv zeta. simpl.
    rewrite (server_import_run _ _ acc Hacc).
    rewrite (IH fuel (k + 1) _ (acc ++ (asObject <$> page_at size docs k)) Hn' ltac:(lia))
      by apply lookup_insert_eq.
    rewrite insert_insert_eq. f_equal.
    rewrite <- app_assoc, <- fmap_app. do 2 f_equal.
    unfold page_at.
    replace ((k + 1) * size) with (k * size + size) by lia.
    rewrite <- drop_drop. apply take_drop.
Qed.

Lemma server_provision_run (s : gmap string (list Object)) :
  outcome_of (provision_run (client := Server.client) areaSchema s) = Returned tt /\
  final (provision_run (client := Server.client) areaSchema s)
    = <[schema_name areaSchema := []]> s.
Proof.
  unfold provision_run. simpl. unfold Server.delete_collection, Server.create_collection.
  destruct (s !! schema_name areaSchema) as [old|] eqn:Hold.
  - rewrite lookup_delete_eq. simpl. split; [done|]. apply insert_delete_eq.
  - rewrite Hold. by simpl.
Qed.

(** A pass against the server: the collection of [areaSchema] is emptied,
    then the documents of the source are appended to the collection of
    [schema], if there is one. *)
Lemma server_pass_final fuel (s : gmap string (list Object)) acc :
  div_ceil (length rows) size < fuel ->
  <[schema_name areaSchema := []]> s !! name = Some acc ->
  let r := processMongoCollection (client := Server.client) areaSchema fuel schema
             convert asObject (paged from rows size) s in
  outcome_of r = Returned tt /\
  final r = <[name := acc ++ (asObject <$> docs)]> (<[schema_name areaSchema := []]> s).
Proof.
  intros Hf Hacc. cbv zeta. rewrite processMongoCollection_run. cbv zeta.
  destruct (server_provision_run s) as [Hout Hfin]. rewrite Hout, Hfin.
  unfold after. simpl. split.
  - by destruct (pass_loop_complete (client := Server.client) schema convert asObject
                   from rows size size_pos docs (div_ceil (length rows) size) fuel 0
                   (<[schema_name areaSchema := []]> s) rows_convert) as (H & _);
      [unfold pages_left; f_equal; lia|done|].
  - rewrite (server_loop_final (div_ceil (length rows) size) fuel 0 _ acc);
      [by rewrite drop_0|unfold pages_left; f_equal; lia|done|done].
Qed.

End OnTheServer.

(** X15: against a Typesense server the areas pass leaves in the area
    collection the documents of the source, in the order of the source,
    and nothing else, whatever the collection held before, and touches no
    other collection; so a second pass changes nothing. *)
Lemma areas_pass_idempotent (areaSchema : CollectionCreateSchema)
    (db : SourceDB) (docs : list AreaTypeSenseItem) (fuel : nat)
    (s : gmap string (list Object)) :
  array_map Area.mongoToTypeSense (areas db) = Ok docs ->
  div_ceil (length (areas db)) chunkSize < fuel ->
  let pass := updateAreaTypesense (client := Server.client) areaSchema fuel db in
  final (pass s) = <[schema_name areaSchema := AreaObject <$> docs]> s /\
  final (pass (final (pass s))) = final (pass s).
Proof.
  intros Hdocs Hf. cbv zeta. unfold updateAreaTypesense. rewrite getAllAreas_paged.
  assert (forall s : gmap string (list Object),
            final (processMongoCollection (client := Server.client) areaSchema fuel
                     areaSchema Area.mongoToTypeSense AreaObject
                     (paged Areas (areas db) chunkSize) s)
            = <[schema_name areaSchema := AreaObject <$> docs]> s) as Hfinal.
  { intros s'.
    destruct (server_pass_final areaSchema areaSchema Area.mongoToTypeSense AreaObject
                Areas (areas db) docs chunkSize ltac:(unfold chunkSize; lia) Hdocs
                fuel s' [] Hf (lookup_insert_eq _ _ _)) as [_ ->].
    simpl. apply insert_insert_eq. }
  split; [apply Hfinal|]. rewrite !Hfinal. apply insert_insert_eq.
Qed.

(** The climbs pass leaves the climb collection as it found it, with the
    documents of the source appended. *)
Lemma climbs_pass_appends (climbSchema areaSchema : CollectionCreateSchema)
    (db : SourceDB) (docs : list ClimbTypeSenseItem) (fuel : nat)
    (s : gmap string (list Object)) (old : list Object) :
  schema_name climbSchema <> schema_name areaSchema ->
  s !! schema_name climbSchema = Some old ->
  array_map Climb.mongoToTypeSense (aggregateClimbs db) = Ok docs ->
  div_ceil (length (aggregateClimbs db)) chunkSize < fuel ->
  final (updateClimbTypesense (client := Server.client) climbSchema areaSchema fuel db s)
    !! schema_name climbSchema = Some (old ++ (ClimbObject <$> docs)).
Proof.
  intros Hne Hold Hdocs Hf. unfold updateClimbTypesense. rewrite getAllClimbs_paged.
  destruct (server_pass_final areaSchema climbSchema Climb.mongoToTypeSense ClimbObject
              ClimbsWithArea (aggregateClimbs db) docs chunkSize
              ltac:(unfold chunkSize; lia) Hdocs fuel s old Hf) as [_ ->].
  - by rewrite lookup_insert_ne.
  - apply lookup_insert_eq.
Qed.

(** ** Runs that part from the specification *)

(** C1: a run with both flags against an empty destination.  Both passes
    drop and create "areas"; "climbs" is never provisioned, the climbs
    chunk is imported into a collection that does not exist, and the
    destination ends without a climb collection. *)
Theorem both_flags_provision_areas_twice :
  let r := onDBConnected (client := Server.client) Sample.climbSchema Sample.areaSchema
             Sample.env ["node"; "Typesense.js"; "--climbs"; "--areas"] 4 Sample.db ∅ in
  provisions (trace r) = ["areas"; "areas"; "areas"; "areas"] /\
  (imports (trace r)).*1 = ["climbs"; "areas"] /\
  Import "climbs" (ClimbObject <$> sample_climb_docs) (Some 404) ∈ trace r /\
  final r !! "climbs" = None /\
  final r !! "areas" = Some (AreaObject <$> sample_area_docs) /\
  outcome_of r = Exited 0.
Proof.
  cbv zeta. repeat split; try (vm_compute; reflexivity).
  vm_compute. repeat constructor.
Qed.

(** C2: a run of the areas pass against a destination that rejects the
    [create].  Nothing is read or imported after the rejection, only the
    error is logged; but the process exits with code 0, the code a run
    that completes exits with. *)
Theorem rejected_create_exits_with_zero :
  let failed := onDBConnected (client := Outage.client) Sample.climbSchema
                  Sample.areaSchema Sample.env ["node"; "Typesense.js"; "--areas"] 4
                  Sample.db tt in
  let completed := onDBConnected (client := Server.client) Sample.climbSchema
                     Sample.areaSchema Sample.env ["node"; "Typesense.js"; "--areas"] 4
                     Sample.db ∅ in
  Create Sample.areaSchema (Some 503) ∈ trace failed /\
  after_failed_create (trace failed) = Some [Log Error (Caught (ClientError 503))] /\
  imports (trace failed) = [] /\
  fetched (trace failed) = [] /\
  outcome_of failed = Exited 0 /\
  outcome_of completed = Exited 0 /\
  after_failed_create (trace completed) = None /\
  final completed !! "areas" = Some (AreaObject <$> sample_area_docs).
Proof.
  cbv zeta. split; [vm_compute; repeat constructor|].
  repeat split; vm_compute; reflexivity.
Qed.

(** C9: the climbs pass, run twice against a destination that has a
    climb collection.  The pass never drops that collection, so the
    second run imports the same documents on top of the first. *)
Theorem climbs_pass_twice_duplicates :
  let pass := updateClimbTypesense (client := Server.client) Sample.climbSchema
                Sample.areaSchema 4 Sample.db in
  let start : gmap string (list Object) := {[ "climbs" := [] ]} in
  let once := final (pass start) in
  let twice := final (pass once) in
  outcome_of (pass start) = Returned tt /\
  outcome_of (pass once) = Returned tt /\
  once !! "climbs" = Some (ClimbObject <$> sample_climb_docs) /\
  twice !! "climbs" = Some ((ClimbObject <$> sample_climb_docs)
                            ++ (ClimbObject <$> sample_climb_docs)) /\
  length sample_climb_docs = 1 /\
  twice !! "climbs" <> once !! "climbs".
Proof.
  cbv zeta. repeat split; try (vm_compute; reflexivity).
  vm_compute. discriminate.
Qed.

(** * More of the job *)

(** ** The join of [getAllClimbs] *)

Lemma aggregateClimbs_bind db :
  aggregateClimbs db =
    c ← climbs db;
    (merge_area c <$> filter (fun a => areaRef_of c = area_id_of a) (areas db)).
Proof.
  unfold aggregateClimbs. induction (climbs db) as [|c cs IH]; [done|].
  rewrite !bind_cons, IH. by f_equal.
Qed.

Lemma elem_of_aggregateClimbs (db : SourceDB) (doc : ClimbTypes.ClimbExtType) :
  (doc ∈ aggregateClimbs db) <->
  exists c a,
    c ∈ climbs db /\ a ∈ areas db /\ areaRef_of c = area_id_of a /\ doc = merge_area c a.
Proof.
  rewrite aggregateClimbs_bind, list_elem_of_bind. split.
  - intros (c & Hdoc & Hc). apply list_elem_of_fmap in Hdoc as (a & -> & Ha).
    apply list_elem_of_filter in Ha as [Hmatch Ha]. by exists c, a.
  - intros (c & a & Hc & Ha & Hmatch & ->). exists c. split; [|done].
    apply list_elem_of_fmap. exists a. split; [done|].
    by apply list_elem_of_filter.
Qed.


Lemma filter_unique_key {A K} `{EqDecision K} (f : A -> K) (x : K) (l : list A) :
  NoDup (f <$> l) ->
  ((x ∉ f <$> l) /\ filter (fun a => x = f a) l = []) \/
  (x ∈ f <$> l /\ exists a, filter (fun a => x = f a) l = [a]).
Proof.
  induction l as [|a l IH]; intros Hnd.
  - left. split; [|done]. apply not_elem_of_nil.
  - rewrite fmap_cons in Hnd. apply NoDup_cons in Hnd as [Hnotin Hnd].
    destruct (decide (x = f a)) as [->|Hne].
    + right. split; [rewrite fmap_cons; apply elem_of_cons; by left|].
      exists a. rewrite filter_cons_True by done. f_equal.
      destruct (IH Hnd) as [[_ Hnil]|[Hin _]]; done.
    + rewrite filter_cons_False by done.
      destruct (IH Hnd) as [[Hnotin' Hnil]|[Hin Hone]].
      * left. split; [|done]. rewrite fmap_cons. apply not_elem_of_cons. done.
      * right. split; [|done]. rewrite fmap_cons. apply elem_of_cons. by right.
Qed.

(** X2: when no two areas share an identifier, the aggregation returns at
    most one document per climb and keeps the climbs in their order: its
    climbs are the climbs of the store that refer to an area that is
    there, and a climb that refers to none is dropped. *)
Theorem aggregateClimbs_one_per_climb (db : SourceDB) :
  NoDup (area_id_of <$> areas db) ->
  ClimbTypes.climb <$> aggregateClimbs db =
    filter (fun c => areaRef_of c ∈ area_id_of <$> areas db) (climbs db).
Proof.
  intros Hnd. rewrite aggregateClimbs_bind.
  induction (climbs db) as [|c cs IH]; [done|].
  rewrite bind_cons, fmap_app, IH.
  destruct (filter_unique_key area_id_of (areaRef_of c) (areas db) Hnd)
    as [[Hnotin ->]|[Hin [a ->]]].
  - by rewrite filter_cons_False.
  - by rewrite filter_cons_True.
Qed.

Lemma aggregateClimbs_one_per_climb_witness :
  ClimbTypes.climb <$> aggregateClimbs sample_db_with_orphan =
    [Sample.climb "c-1" "Snake Dike" "a-3"; Sample.climb "c-3" "Regular Route" "a-1"].
Proof.
  rewrite aggregateClimbs_one_per_climb; [reflexivity|]. compute_done.
Defined.

(** X3: the document of a climb that the aggregation returned carries, as
    [areaNames], the [pathTokens] of an area of the store whose identifier
    is the climb's [areaRef], and as [climbUUID] the text of the climb's
    own identifier. *)
Theorem climb_document_of_the_join (db : SourceDB)
    (doc : ClimbTypes.ClimbExtType) (item : ClimbTypeSenseItem) :
  doc ∈ aggregateClimbs db ->
  Climb.mongoToTypeSense doc = Ok item ->
  exists a md id,
    a ∈ areas db /\
    areaRef_of (ClimbTypes.climb doc) = area_id_of a /\
    areaNames item = AreaTypes.pathTokens a /\
    ClimbTypes.metadata (ClimbTypes.climb doc) = Some md /\
    ClimbTypes.climb_id md = Some id /\
    climbUUID item = uuid_text id.
Proof.
  intros Hdoc Hitem. apply elem_of_aggregateClimbs in Hdoc as (c & a & Hc & Ha & Hmatch & ->).
  unfold Climb.mongoToTypeSense in Hitem. simpl in *.
  destruct (ClimbTypes.metadata c) as [md|] eqn:Hmd; [|done]. simpl in Hitem.
  destruct (ClimbTypes.climb_id md) as [id|] eqn:Hid; [|done]. simpl in Hitem.
  destruct (ClimbTypes.content c) as [ct|]; [|done]. simpl in Hitem.
  destruct (ClimbTypes.lnglat md) as [p|]; [|done]. simpl in Hitem.
  inversion Hitem; subst item. by exists a, md, id.
Qed.

Lemma climb_document_of_the_join_witness :
  match Climb.mongoToTypeSense sample_joined with
  | Ok item => exists a, a ∈ areas Sample.db /\ areaNames item = AreaTypes.pathTokens a
  | Throw _ => False
  end.
Proof.
  destruct (Climb.mongoToTypeSense sample_joined) as [item|e] eqn:Hitem;
    [|by vm_compute in Hitem].
  destruct (climb_document_of_the_join Sample.db sample_joined item)
    as (a & md & id & Ha & _ & Hnames & _);
    [vm_compute; repeat constructor|exact Hitem|].
  by exists a.
Defined.

(** ** What the transformers need, and what they do not check *)




(** ** Provisioning *)

(** X7: [checkCollection] makes one [delete] and then one [create], the
    [create] on whatever the [delete] left.  A rejected [delete] is logged
    and changes nothing else; only the [create] decides how it ends: it
    returns exactly when the [create] resolved, it exits when the [create]
    was rejected, and it never rejects its caller. *)
Theorem checkCollection_drops_then_creates {St} {client : Client St}
    (schema : CollectionCreateSchema) (s : St) :
  let r := checkCollection schema s in
  let dropped := collection_delete (schema_name schema) s in
  let created := collections_create schema dropped.1 in
  (exists line1 line2,
     trace r = [ Delete (schema_name schema) dropped.2; Log Error line1;
                 Create schema created.2; Log Error line2 ] /\
     (line1 = Dropped (schema_name schema) <-> dropped.2 = None) /\
     (line2 = Created (schema_name schema) <-> created.2 = None)) /\
  final r = created.1 /\
  (outcome_of r = Returned tt <-> created.2 = None) /\
  ((exists code, outcome_of r = Exited code) <-> created.2 <> None) /\
  (forall e, outcome_of r <> Rejected e) /\
  outcome_of r <> Unfinished.
Proof.
  cbv zeta. rewrite checkCollection_run. unfold provision_run.
  destruct (collection_delete (schema_name schema) s) as [s1 [st1|]]; simpl;
    destruct (collections_create schema s1) as [s2 [st2|]]; simpl;
    (split; [eexists _, _; split; [reflexivity|]; split; split; congruence|]);
    repeat split; try congruence; try (by intros [? ?]); try (by eexists).
Qed.

Section Order.

Context {St : Type} {client : Client St}.
Context {ChunkType SourceDataType : Type}.
Variables (areaSchema schema : CollectionCreateSchema)
          (convert : SourceDataType -> result ChunkType)
          (asObject : ChunkType -> Object)
          (from : source) (rows : list SourceDataType) (size : nat).

Lemma processMongoCollection_order fuel (s : St) :
  let r := processMongoCollection areaSchema fuel schema convert asObject
             (paged from rows size) s in
  let p := checkCollection areaSchema s in
  exists rest,
    trace r = trace p ++ rest /\
    imports (trace p) = [] /\ fetched (trace p) = [] /\
    provisions rest = [] /\
    (outcome_of p <> Returned tt -> rest = [] /\ outcome_of r = outcome_of p).
Proof.
  cbv zeta. rewrite processMongoCollection_run, checkCollection_run. cbv zeta.
  destruct (provision_run_trace areaSchema s) as (_ & Himp & Hfetch & _).
  destruct (provision_run_outcome areaSchema s) as [Hout|Hout]; rewrite Hout.
  - exists (trace (pass_loop schema convert asObject from rows size fuel 0
                     (final (provision_run areaSchema s)))).
    destruct (pass_loop_inv schema convert asObject from rows size fuel 0
                (final (provision_run areaSchema s))) as (_ & Hprov & _).
    repeat split; done.
  - exists []. simpl. rewrite app_nil_r. repeat split; done.
Qed.

End Order.

(** X8: in either pass every call that drops or creates a collection
    comes before the first read of the source and the first import: the
    trace is that of [checkCollection areaSchema] followed by a rest that
    provisions nothing; and when [checkCollection] does not return, there
    is no rest: nothing is read and nothing is imported. *)
Theorem passes_provision_first {St} {client : Client St}
    (climbSchema areaSchema : CollectionCreateSchema)
    (fuel : nat) (db : SourceDB) (s : St) :
  let p := checkCollection areaSchema s in
  imports (trace p) = [] /\ fetched (trace p) = [] /\
  (exists rest,
     trace (updateClimbTypesense climbSchema areaSchema fuel db s) = trace p ++ rest /\
     provisions rest = [] /\
     (outcome_of p <> Returned tt ->
      rest = [] /\
      outcome_of (updateClimbTypesense climbSchema areaSchema fuel db s) = outcome_of p)) /\
  (exists rest,
     trace (updateAreaTypesense areaSchema fuel db s) = trace p ++ rest /\
     provisions rest = [] /\
     (outcome_of p <> Returned tt ->
      rest = [] /\
      outcome_of (updateAreaTypesense areaSchema fuel db s) = outcome_of p)).
Proof.
  cbv zeta. unfold updateClimbTypesense, updateAreaTypesense.
  rewrite getAllClimbs_paged, getAllAreas_paged.
  destruct (processMongoCollection_order areaSchema climbSchema Climb.mongoToTypeSense
              ClimbObject ClimbsWithArea (aggregateClimbs db) chunkSize fuel s)
    as (restc & Htc & Himp & Hfetch & Hprovc & Hendc).
  destruct (processMongoCollection_order areaSchema areaSchema Area.mongoToTypeSense
              AreaObject Areas (areas db) chunkSize fuel s)
    as (resta & Hta & _ & _ & Hprova & Henda).
  split; [done|]. split; [done|]. split; [by exists restc|by exists resta].
Qed.

(** ** The loop ends, and loses nothing *)

Section Ends.

Context {St : Type} {client : Client St}.
Context {ChunkType SourceDataType : Type}.
Variables (areaSchema schema : CollectionCreateSchema)
          (convert : SourceDataType -> result ChunkType)
          (asObject : ChunkType -> Object)
          (from : source) (rows : list SourceDataType) (size : nat).

Hypothesis size_pos : 1 <= size.

Local Abbreviation loop_at :=
  (pass_loop (St := St) schema convert asObject from rows size).

(** With fuel for the pages that are left, the loop ends, after at most
    one fetch more than there are pages, and more fuel changes nothing. *)
Lemma pass_loop_ends n : forall fuel k s,
  pages_left size rows k = n -> n < fuel ->
  outcome_of (loop_at fuel k s) <> Unfinished /\
  length (fetched (trace (loop_at fuel k s))) <= S n /\
  loop_at fuel k s = loop_at (S n) k s.
Proof.
  induction n as [|n IH]; intros fuel k s Hn Hf;
    (destruct fuel as [|fuel]; [lia|]).
  - pose proof (pages_left_0 size rows k size_pos Hn) as Hnil.
    rewrite !loop_return by done. simpl. repeat split; [done|lia].
  - destruct (pages_left_S size rows k n size_pos Hn) as [Hne Hn'].
    destruct (array_map convert (page_at size rows k)) as [docs|e] eqn:Hmap.
    2:{ rewrite !(loop_throw _ _ _ _ _ _ _ _ _ e Hne Hmap). simpl.
        repeat split; [done|lia]. }
    rewrite !(loop_upload _ _ _ _ _ _ _ _ _ _ Hne Hmap). cbv zeta.
    set (up := import_run schema (asObject <$> docs) s).
    destruct (IH fuel (k + 1) (final up) Hn' ltac:(lia)) as (Hout & Hlen & Heq).
    destruct (import_run_quiet schema (asObject <$> docs) s) as (_ & Hup & _).
    fold up in Hup. rewrite Heq. simpl. repeat split.
    + by rewrite <- Heq.
    + unfold fetched in *. simpl. rewrite omap_app, Hup. simpl.
      rewrite <- Heq. lia.
Qed.

Lemma concat_chunks (docs : list ChunkType) n :
  concat ((chunk_at schema asObject size docs <$> seq 0 n).*2)
    = asObject <$> take (n * size) docs.
Proof.
  rewrite <- (concat_pages size docs n).
  induction (seq 0 n) as [|i l IH]; [done|].
  rewrite !fmap_cons. simpl. by rewrite fmap_app, IH.
Qed.

End Ends.

(** X9: a pass ends.  Over a source of [N] rows read by pages of [size],
    with fuel for more than [ceil (N / size)] rounds the loop is never cut
    short, whatever the destination answers and whether or not the
    records convert; it reads the source at most [ceil (N / size) + 1]
    times; and the run is the same for any such amount of fuel. *)
Theorem pass_terminates {St} {client : Client St} {ChunkType SourceDataType}
    (areaSchema schema : CollectionCreateSchema)
    (convert : SourceDataType -> result ChunkType) (asObject : ChunkType -> Object)
    (dataGenerator : AsyncGenerator St (list SourceDataType))
    (from : source) (rows : list SourceDataType)
    (size fuel fuel' : nat) (s : St) :
  dataGenerator = paged from rows size ->
  1 <= size ->
  div_ceil (length rows) size < fuel ->
  div_ceil (length rows) size < fuel' ->
  let r := processMongoCollection areaSchema fuel schema convert asObject dataGenerator s in
  outcome_of r <> Unfinished /\
  length (fetched (trace r)) <= S (div_ceil (length rows) size) /\
  r = processMongoCollection areaSchema fuel' schema convert asObject dataGenerator s.
Proof.
  intros -> Hs Hf Hf'. cbv zeta. rewrite !processMongoCollection_run. cbv zeta.
  destruct (provision_run_trace areaSchema s) as (_ & _ & Hfetch & _).
  destruct (provision_run_outcome areaSchema s) as [Hout|Hout]; rewrite Hout.
  - destruct (pass_loop_ends schema convert asObject from rows size Hs
                (div_ceil (length rows) size) fuel 0 (final (provision_run areaSchema s)))
      as (Hend & Hlen & Heq); [unfold pages_left; f_equal; lia|done|].
    destruct (pass_loop_ends schema convert asObject from rows size Hs
                (div_ceil (length rows) size) fuel' 0 (final (provision_run areaSchema s)))
      as (_ & _ & Heq'); [unfold pages_left; f_equal; lia|done|].
    unfold after, fetched in *. simpl. rewrite omap_app, Hfetch. simpl.
    repeat split; [done|done|]. by rewrite Heq, Heq'.
  - unfold stop, fetched in *. simpl. rewrite Hfetch. simpl. repeat split; [done|lia].
Qed.

(** Three areas by pages of two, one of them without its identifier,
    against a destination that is down for one import. *)
Lemma pass_terminates_witness :
  let pass fuel := processMongoCollection (client := Flaky.client) Sample.areaSchema fuel
                     Sample.areaSchema Area.mongoToTypeSense AreaObject
                     (getAllAreas 2 {| climbs := [];
                                       areas := areas Sample.db ++ [Sample.nameless_area] |}) 1 in
  outcome_of (pass 3) <> Unfinished /\
  length (fetched (trace (pass 3))) <= 3 /\
  pass 3 = pass 10.
Proof.
  apply (pass_terminates (client := Flaky.client) Sample.areaSchema Sample.areaSchema
           Area.mongoToTypeSense AreaObject _ Areas
           (areas Sample.db ++ [Sample.nameless_area]) 2 3 10 1);
    [reflexivity|lia|vm_compute; lia|vm_compute; lia].
Defined.

(** X10: a pass that returns has handed every record of the source to
    the destination exactly once and in the order of the source: the
    chunks it imported, put end to end, are the documents of the source,
    and all went to the collection of [schema]; this whichever imports
    the destination rejected. *)
Theorem pass_uploads_every_record_once {St} {client : Client St} {ChunkType SourceDataType}
    (areaSchema schema : CollectionCreateSchema)
    (convert : SourceDataType -> result ChunkType) (asObject : ChunkType -> Object)
    (dataGenerator : AsyncGenerator St (list SourceDataType))
    (from : source) (rows : list SourceDataType) (docs : list ChunkType)
    (size fuel : nat) (s : St) :
  dataGenerator = paged from rows size ->
  1 <= size ->
  array_map convert rows = Ok docs ->
  outcome_of (checkCollection areaSchema s) = Returned tt ->
  div_ceil (length rows) size < fuel ->
  let r := processMongoCollection areaSchema fuel schema convert asObject dataGenerator s in
  concat (imports (trace r)).*2 = asObject <$> docs /\
  Forall (fun c : string * list Object => c.1 = schema_name schema) (imports (trace r)) /\
  length (concat (imports (trace r)).*2) = length rows.
Proof.
  intros -> Hs Hdocs Hprov Hf. cbv zeta.
  destruct (processMongoCollection_provisioned areaSchema schema convert asObject
              from rows size fuel s Hprov) as (_ & Himp & _).
  destruct (processMongoCollection_inv areaSchema schema convert asObject
              from rows size fuel s) as (_ & Hchunks & _).
  destruct (pass_loop_complete schema convert asObject from rows size Hs docs
              (div_ceil (length rows) size) fuel 0
              (final (provision_run areaSchema s)) Hdocs) as (_ & H2 & _);
    [unfold pages_left; f_equal; lia|done|].
  pose proof (array_map_length _ _ _ Hdocs) as Hlen.
  pose proof (div_ceil_covers (length rows) size Hs) as Hcov.
  assert (concat (imports (trace (processMongoCollection areaSchema fuel schema convert
                                    asObject (paged from rows size) s))).*2
          = asObject <$> docs) as Hall.
  { rewrite Himp, H2, concat_chunks. by rewrite take_ge by lia. }
  split; [done|]. split.
  - eapply Forall_impl; [exact Hchunks|]. by intros c [Hc _].
  - by rewrite Hall, length_fmap.
Qed.

Lemma pass_uploads_every_record_once_witness :
  let r := processMongoCollection (client := Flaky.client) Sample.areaSchema 4
             Sample.areaSchema Area.mongoToTypeSense AreaObject
             (getAllAreas 2 Sample.db) 1 in
  concat (imports (trace r)).*2 = AreaObject <$> sample_area_docs /\
  length (imports (trace r)) = 2.
Proof.
  destruct (pass_uploads_every_record_once (client := Flaky.client)
              Sample.areaSchema Sample.areaSchema Area.mongoToTypeSense AreaObject
              (getAllAreas 2 Sample.db) Areas (areas Sample.db) sample_area_docs 2 4 1)
    as (Hall & _ & _);
    [reflexivity|lia|reflexivity|reflexivity|vm_compute; lia|].
  cbv zeta. split; [exact Hall|reflexivity].
Defined.

(** ** The orchestrator *)

Section Orchestrator.

Context {St : Type} {client : Client St}.
Variables climbSchema areaSchema : CollectionCreateSchema.

Local Abbreviation started := (Log Info (Text "Start pushing data to TypeSense")).
Local Abbreviation climbs_pushed := (Log Info (Text "Climbs pushed to typesense")).
Local Abbreviation areas_pushed := (Log Info (Text "areas pushed to typesense")).

(** Past the guard, [onDBConnected] is its two optional passes in a row. *)
Lemma onDBConnected_past_guard env argv fuel db (s : St) :
  credentials_missing env = false ->
  onDBConnected climbSchema areaSchema env argv fuel db s =
    (log Info (Text "Start pushing data to TypeSense") ;;
     (if bool_decide ("--climbs" ∈ argv)
      then updateClimbTypesense climbSchema areaSchema fuel db ;;
           log Info (Text "Climbs pushed to typesense")
      else mret tt) ;;
     (if bool_decide ("--areas" ∈ argv)
      then updateAreaTypesense areaSchema fuel db ;;
           log Info (Text "areas pushed to typesense")
      else mret tt) ;;
     gracefulExit None) s.
Proof.
  intros Hcreds. unfold onDBConnected, credentials_missing in *. cbv zeta.
  rewrite Hcreds. reflexivity.
Qed.

End Orchestrator.

(** X11: with both credentials set and neither flag given, the run logs
    that it starts and exits with code 0: it makes no call to the
    destination, reads nothing, and leaves the destination as it was. *)
Theorem onDBConnected_without_flags {St} {client : Client St}
    (climbSchema areaSchema : CollectionCreateSchema)
    (env : gmap string string) (argv : list string) (fuel : nat)
    (db : SourceDB) (s : St) :
  credentials_missing env = false ->
  "--climbs" ∉ argv ->
  "--areas" ∉ argv ->
  onDBConnected climbSchema areaSchema env argv fuel db s =
    {| final := s;
       trace := [Log Info (Text "Start pushing data to TypeSense")];
       outcome_of := Exited 0 |}.
Proof.
  intros Hcreds Hc Ha. rewrite onDBConnected_past_guard by done.
  rewrite !bool_decide_eq_false_2 by done. reflexivity.
Qed.

Lemma onDBConnected_without_flags_witness :
  onDBConnected (client := Outage.client) Sample.climbSchema Sample.areaSchema
    Sample.env ["node"; "Typesense.js"; "--verbose"] 0 Sample.db tt =
    {| final := tt;
       trace := [Log Info (Text "Start pushing data to TypeSense")];
       outcome_of := Exited 0 |}.
Proof.
  apply onDBConnected_without_flags; [reflexivity|compute_done|compute_done].
Defined.

Section Sequence.

Context {St : Type}.
Variables pc pa : M St unit.

(** Two computations in a row, each followed by its completion line. *)
Lemma both_return (s : St) :
  outcome_of (pc s) = Returned tt ->
  outcome_of (pa (final (pc s))) = Returned tt ->
  (log Info (Text "Start pushing data to TypeSense") ;;
   (pc ;; log Info (Text "Climbs pushed to typesense")) ;;
   (pa ;; log Info (Text "areas pushed to typesense")) ;;
   gracefulExit None) s =
    {| final := final (pa (final (pc s)));
       trace := Log Info (Text "Start pushing data to TypeSense")
                :: trace (pc s)
                ++ Log Info (Text "Climbs pushed to typesense")
                :: trace (pa (final (pc s)))
                ++ [Log Info (Text "areas pushed to typesense")];
       outcome_of := Exited 0 |}.
Proof.
  intros Hc Ha. unfold mbind, M_bind, log, gracefulExit, after, stop. simpl.
  rewrite Hc. simpl. rewrite Ha. simpl.
  f_equal. f_equal. by rewrite <- !app_assoc.
Qed.

(** The first does not return: nothing after it is started. *)
Lemma first_stops (rest : M St unit) (s : St) :
  outcome_of (pc s) <> Returned tt ->
  (log Info (Text "Start pushing data to TypeSense") ;;
   (pc ;; log Info (Text "Climbs pushed to typesense")) ;;
   rest) s =
    {| final := final (pc s);
       trace := Log Info (Text "Start pushing data to TypeSense") :: trace (pc s);
       outcome_of := outcome_of (pc s) |}.
Proof.
  intros Hc. unfold mbind, M_bind, log, after, stop. simpl.
  destruct (outcome_of (pc s)) as [[]| | |]; done.
Qed.

Hypothesis pc_ends : forall s, ends_as_a_pass (pc s).
Hypothesis pa_ends : forall s, ends_as_a_pass (pa s).

(** Two optional passes and the exit: the exit code is 0, and a rejection
    is one of a pass. *)
Lemma passes_then_exit (with_pc with_pa : bool) (s : St) :
  match outcome_of
          ((log Info (Text "Start pushing data to TypeSense") ;;
            (if with_pc then pc ;; log Info (Text "Climbs pushed to typesense")
             else mret tt) ;;
            (if with_pa then pa ;; log Info (Text "areas pushed to typesense")
             else mret tt) ;;
            gracefulExit None) s) with
  | Returned _ => False
  | Exited code => code = 0%Z
  | Rejected e => exists property, e = TypeError property
  | Unfinished => True
  end.
Proof.
  unfold mbind, M_bind, log, gracefulExit, after, stop. simpl.
  destruct with_pc; simpl.
  - pose proof (pc_ends s) as Hc. unfold ends_as_a_pass in Hc.
    destruct (outcome_of (pc s)) as [[]| | |]; simpl; try done.
    destruct with_pa; simpl; [|done].
    pose proof (pa_ends (final (pc s))) as Ha. unfold ends_as_a_pass in Ha.
    by destruct (outcome_of (pa (final (pc s)))) as [[]| | |].
  - destruct with_pa; simpl; [|done].
    pose proof (pa_ends s) as Ha. unfold ends_as_a_pass in Ha.
    by destruct (outcome_of (pa s)) as [[]| | |].
Qed.

End Sequence.

(** X12: with both flags the climbs pass runs first and the areas pass
    starts from the destination the climbs pass left.  When both passes
    return, the trace of the run is the start line, the climbs pass, its
    completion line, the areas pass and its completion line, and the
    process exits with code 0. *)
Theorem onDBConnected_climbs_then_areas {St} {client : Client St}
    (climbSchema areaSchema : CollectionCreateSchema)
    (env : gmap string string) (argv : list string) (fuel : nat)
    (db : SourceDB) (s : St) :
  let rc := updateClimbTypesense climbSchema areaSchema fuel db s in
  let ra := updateAreaTypesense areaSchema fuel db (final rc) in
  credentials_missing env = false ->
  "--climbs" ∈ argv ->
  "--areas" ∈ argv ->
  outcome_of rc = Returned tt ->
  outcome_of ra = Returned tt ->
  onDBConnected climbSchema areaSchema env argv fuel db s =
    {| final := final ra;
       trace := Log Info (Text "Start pushing data to TypeSense")
                :: trace rc
                ++ Log Info (Text "Climbs pushed to typesense")
                :: trace ra
                ++ [Log Info (Text "areas pushed to typesense")];
       outcome_of := Exited 0 |}.
Proof.
  cbv zeta. intros Hcreds Hc Ha Hrc Hra. rewrite onDBConnected_past_guard by done.
  rewrite !bool_decide_eq_true_2 by done. by apply both_return.
Qed.

Lemma onDBConnected_climbs_then_areas_witness :
  let start : gmap string (list Object) := {[ "climbs" := [] ]} in
  let rc := updateClimbTypesense (client := Server.client) Sample.climbSchema
              Sample.areaSchema 4 Sample.db start in
  let ra := updateAreaTypesense (client := Server.client) Sample.areaSchema 4 Sample.db
              (final rc) in
  onDBConnected (client := Server.client) Sample.climbSchema Sample.areaSchema Sample.env
    ["node"; "Typesense.js"; "--areas"; "--climbs"] 4 Sample.db start =
    {| final := final ra;
       trace := Log Info (Text "Start pushing data to TypeSense")
                :: trace rc
                ++ Log Info (Text "Climbs pushed to typesense")
                :: trace ra
                ++ [Log Info (Text "areas pushed to typesense")];
       outcome_of := Exited 0 |}.
Proof.
  cbv zeta.
  apply (onDBConnected_climbs_then_areas (client := Server.client) Sample.climbSchema
           Sample.areaSchema Sample.env ["node"; "Typesense.js"; "--areas"; "--climbs"]
           4 Sample.db {[ "climbs" := [] ]});
    [vm_compute; reflexivity|compute_done|compute_done
    |vm_compute; reflexivity|vm_compute; reflexivity].
Defined.

(** X13: when the climbs pass does not return (the [create] of
    [checkCollection] was rejected, or a record did not convert), the run
    ends there as the pass ended: no completion line is logged, the areas
    pass is not started whatever the flags, and [gracefulExit()] at the
    end of [onDBConnected] is not reached. *)
Theorem onDBConnected_stops_with_the_climbs_pass {St} {client : Client St}
    (climbSchema areaSchema : CollectionCreateSchema)
    (env : gmap string string) (argv : list string) (fuel : nat)
    (db : SourceDB) (s : St) :
  let rc := updateClimbTypesense climbSchema areaSchema fuel db s in
  credentials_missing env = false ->
  "--climbs" ∈ argv ->
  outcome_of rc <> Returned tt ->
  onDBConnected climbSchema areaSchema env argv fuel db s =
    {| final := final rc;
       trace := Log Info (Text "Start pushing data to TypeSense") :: trace rc;
       outcome_of := outcome_of rc |}.
Proof.
  cbv zeta. intros Hcreds Hc Hrc. rewrite onDBConnected_past_guard by done.
  rewrite (bool_decide_eq_true_2 _ Hc). by apply first_stops.
Qed.

(** A climb whose [content] is missing rejects the run before the areas
    pass. *)
Lemma onDBConnected_stops_with_the_climbs_pass_witness :
  let db := {| climbs := [ {| ClimbTypes.name := "No content";
                              ClimbTypes.fa := None;
                              ClimbTypes.yds := "5.8";
                              ClimbTypes.type := [];
                              ClimbTypes.safety := "";
                              ClimbTypes.metadata :=
                                ClimbTypes.metadata (Sample.climb "c-4" "" "a-1");
                              ClimbTypes.content := None |} ];
               areas := areas Sample.db |} in
  let r := onDBConnected (client := Server.client) Sample.climbSchema Sample.areaSchema
             Sample.env ["node"; "Typesense.js"; "--climbs"; "--areas"] 4 db ∅ in
  outcome_of r = Rejected (TypeError "description") /\
  fetched (trace r) = [1] /\
  imports (trace r) = [].
Proof.
  cbv zeta.
  rewrite (onDBConnected_stops_with_the_climbs_pass (client := Server.client));
    [|vm_compute; reflexivity|compute_done|by vm_compute].
  repeat split; vm_compute; reflexivity.
Defined.

Section PassEnds.

Context {St : Type} {client : Client St}.
Context {ChunkType SourceDataType : Type}.
Variables (areaSchema schema : CollectionCreateSchema)
          (convert : SourceDataType -> result ChunkType)
          (asObject : ChunkType -> Object)
          (from : source) (rows : list SourceDataType) (size : nat).

Hypothesis convert_throws_TypeError :
  forall x e, convert x = Throw e -> exists property, e = TypeError property.

Lemma array_map_throws_TypeError l e :
  array_map convert l = Throw e -> exists property, e = TypeError property.
Proof.
  induction l as [|x l IH]; simpl; [done|].
  destruct (convert x) as [y|e'] eqn:Hx.
  - destruct (array_map convert l) as [ys|e'']; [done|].
    intros H. inversion H; subst. by apply IH.
  - intros H. inversion H; subst. by eapply convert_throws_TypeError.
Qed.

Lemma pass_loop_rejected fuel : forall k (s : St) e,
  outcome_of (pass_loop schema convert asObject from rows size fuel k s) = Rejected e ->
  exists property, e = TypeError property.
Proof.
  induction fuel as [|fuel IH]; intros k s e; [done|].
  destruct (decide (page_at size rows k = [])) as [Hnil|Hne].
  { by rewrite loop_return. }
  destruct (array_map convert (page_at size rows k)) as [docs|e'] eqn:Hmap.
  - rewrite (loop_upload _ _ _ _ _ _ _ _ _ _ Hne Hmap). cbv zeta. simpl. apply IH.
  - rewrite (loop_throw _ _ _ _ _ _ _ _ _ e' Hne Hmap). simpl.
    intros H. inversion H; subst. by eapply array_map_throws_TypeError.
Qed.

Lemma processMongoCollection_ends fuel (s : St) :
  ends_as_a_pass (processMongoCollection areaSchema fuel schema convert asObject
                    (paged from rows size) s).
Proof.
  unfold ends_as_a_pass. rewrite processMongoCollection_run. cbv zeta.
  destruct (provision_run_outcome areaSchema s) as [Hout|Hout]; rewrite Hout; [|done].
  unfold after. simpl.
  destruct (pass_loop_inv schema convert asObject from rows size fuel 0
              (final (provision_run areaSchema s))) as (_ & _ & _ & Hnever).
  pose proof (pass_loop_rejected fuel 0 (final (provision_run areaSchema s))) as Hrej.
  destruct (outcome_of (pass_loop schema convert asObject from rows size fuel 0
                          (final (provision_run areaSchema s)))); try done.
  by apply Hrej.
Qed.

End PassEnds.

Lemma climb_transform_throws_TypeError doc e :
  Climb.mongoToTypeSense doc = Throw e -> exists property, e = TypeError property.
Proof.
  unfold Climb.mongoToTypeSense.
  destruct (ClimbTypes.metadata (ClimbTypes.climb doc)) as [md|]; simpl;
    [|intros H; inversion H; by eexists].
  destruct (ClimbTypes.climb_id md); simpl; [|intros H; inversion H; by eexists].
  destruct (ClimbTypes.content (ClimbTypes.climb doc)); simpl;
    [|intros H; inversion H; by eexists].
  destruct (ClimbTypes.lnglat md); simpl; [done|intros H; inversion H; by eexists].
Qed.

Lemma area_transform_throws_TypeError doc e :
  Area.mongoToTypeSense doc = Throw e -> exists property, e = TypeError property.
Proof.
  unfold Area.mongoToTypeSense.
  destruct (AreaTypes.metadata doc) as [md|]; simpl; [|intros H; inversion H; by eexists].
  destruct (AreaTypes.area_id md); simpl; [|intros H; inversion H; by eexists].
  destruct (AreaTypes.lnglat md); simpl; [done|intros H; inversion H; by eexists].
Qed.


Lemma areas_pass_idempotent_witness :
  let pass := updateAreaTypesense (client := Server.client) Sample.areaSchema 4 Sample.db in
  final (pass sample_stale_store)
    = <[schema_name Sample.areaSchema := AreaObject <$> sample_area_docs]> sample_stale_store /\
  final (pass (final (pass sample_stale_store))) = final (pass sample_stale_store).
Proof.
  apply (areas_pass_idempotent Sample.areaSchema Sample.db sample_area_docs 4
           sample_stale_store); [reflexivity|vm_compute; lia].
Defined.
